(** * concrete_settings: settings descriptors, validators and the UUID setting

    A shallow embedding of

    - [concrete_settings/__init__.py]            (the interpreter version gate),
    - [concrete_settings/validators/validator.py] (the [Validator] protocol),
    - [concrete_settings/contrib/settings/uuid.py] ([UUIDSetting]),

    together with the parts of the base [Setting] descriptor and of the
    [Settings] container that these files rely on. *)

From Stdlib Require Import ZArith Ascii String List Bool Lia.
From stdpp Require Import base option gmap strings list.

Local Open Scope string_scope.
Local Open Scope Z_scope.
Local Open Scope list_scope.

(** ** Python values and exceptions *)

Module Py.

(** The values that flow through a setting.  [Undefined] is the sentinel
    imported from [concrete_settings]; a [uuid.UUID] instance is
    determined by its 128-bit [int] attribute. *)
Inductive Val : Type :=
| Undefined
| None_
| Bool (b : bool)
| Int (n : Z)
| Str (s : string)
| Bytes (b : list ascii)
| UUID (int : Z).

#[global] Instance Val_eq_dec : EqDecision Val.
Proof. solve_decision. Defined.

(** Exceptions, by class. *)
Inductive Exn : Type :=
| ValueError (msg : string)
| TypeError (msg : string)
| AttributeError (msg : string)
| ImportError (msg : string)
| ValidationError (msg : string)
| UninitializedError
| SettingNameConflict (name : string).

#[global] Instance Exn_eq_dec : EqDecision Exn.
Proof. solve_decision. Defined.

(** [isinstance(e, ValueError)], as tested by an [except ValueError]
    clause. *)
Definition is_ValueError (e : Exn) : bool :=
  match e with ValueError _ => true | _ => false end.

(** The outcome of evaluating an expression: a value or a raised
    exception. *)
Inductive Result (A : Type) : Type :=
| Ok (a : A)
| Raise (e : Exn).
Arguments Ok {A} a.
Arguments Raise {A} e.

Definition raises {A} (r : Result A) : Prop := exists e, r = Raise e.

#[global] Instance Result_ret : MRet Result := fun _ a => Ok a.
#[global] Instance Result_bind : MBind Result := fun _ _ f r =>
  match r with Ok a => f a | Raise e => Raise e end.

End Py.
Import Py.

(** ** The text operations used by [uuid.UUID.__init__] *)

Module PyStr.

Fixpoint is_prefix (p s : string) : bool :=
  match p, s with
  | EmptyString, _ => true
  | String a p', String b s' => if Ascii.eqb a b then is_prefix p' s' else false
  | String _ _, EmptyString => false
  end.

(** [s.replace(old, '')] for a non-empty [old]: every occurrence found
    scanning left to right is dropped; [skip] counts the characters of the
    current occurrence that are still to be dropped. *)
Fixpoint remove_from (old : string) (skip : nat) (s : string) : string :=
  match s with
  | EmptyString => EmptyString
  | String c s' =>
      match skip with
      | S k => remove_from old k s'
      | O => if is_prefix old s
             then remove_from old (Nat.pred (String.length old)) s'
             else String c (remove_from old O s')
      end
  end.

Definition remove (old s : string) : string := remove_from old O s.

Definition mem (c : ascii) (chars : string) : bool :=
  existsb (Ascii.eqb c) (list_ascii_of_string chars).

Fixpoint lstrip (chars s : string) : string :=
  match s with
  | EmptyString => EmptyString
  | String c s' => if mem c chars then lstrip chars s' else s
  end.

(** The stripped suffix is decided from the right: a character is dropped
    when it is in [chars] and everything after it was dropped too. *)
Fixpoint rstrip (chars s : string) : string :=
  match s with
  | EmptyString => EmptyString
  | String c s' =>
      match rstrip chars s' with
      | EmptyString => if mem c chars then EmptyString else String c EmptyString
      | r => String c r
      end
  end.

(** [s.strip(chars)] *)
Definition strip (chars s : string) : string := rstrip chars (lstrip chars s).

End PyStr.

(** ** [int(text, 16)]

    The literal syntax accepted by the interpreter for an explicit base 16:
    white space around the literal, an optional sign, an optional [0x]/[0X]
    prefix, and hexadecimal digits that may be separated by single
    underscores.  A [str] is taken as a sequence of code points below 256;
    among those, the white space is the ASCII white space together with
    U+0085 and U+00A0, and the only digits are the ASCII ones. *)

Module PyInt.

Definition is_space (c : ascii) : bool :=
  let n := nat_of_ascii c in
  ((9 <=? n)%nat && (n <=? 13)%nat) || (n =? 32)%nat
  || (n =? 133)%nat || (n =? 160)%nat.

Definition digit16 (c : ascii) : option Z :=
  let n := Z.of_nat (nat_of_ascii c) in
  if (48 <=? n) && (n <=? 57) then Some (n - 48)
  else if (97 <=? n) && (n <=? 102) then Some (n - 87)
  else if (65 <=? n) && (n <=? 70) then Some (n - 55)
  else None.

Fixpoint skip_spaces (s : list ascii) : list ascii :=
  match s with
  | c :: s' => if is_space c then skip_spaces s' else s
  | [] => []
  end.

Definition underscore : ascii := "_"%char.

(** Scan the digits: [acc] is the value so far, [prev_us] tells whether
    the previous character was an underscore.  Returns the value and the
    unread rest; [None] for a doubled or trailing underscore. *)
Fixpoint scan (acc : Z) (prev_us : bool) (s : list ascii) : option (Z * list ascii) :=
  match s with
  | [] => if prev_us then None else Some (acc, [])
  | c :: s' =>
      if Ascii.eqb c underscore then
        if prev_us then None else scan acc true s'
      else
        match digit16 c with
        | Some d => scan (16 * acc + d) false s'
        | None => if prev_us then None else Some (acc, s)
        end
  end.

Definition strip_prefix (s : list ascii) : list ascii :=
  match s with
  | "0"%char :: x :: s' =>
      if Ascii.eqb x "x"%char || Ascii.eqb x "X"%char
      then match s' with
           | u :: s'' => if Ascii.eqb u underscore then s'' else s'
           | [] => s'
           end
      else s
  | _ => s
  end.

Definition parse16 (text : string) : option Z :=
  let s := skip_spaces (list_ascii_of_string text) in
  let '(sign, s) :=
    match s with
    | c :: s' => if Ascii.eqb c "+"%char then (1, s')
                 else if Ascii.eqb c "-"%char then (-1, s')
                 else (1, s)
    | [] => (1, s)
    end in
  let s := strip_prefix s in
  match s with
  | [] => None
  | c :: _ =>
      if Ascii.eqb c underscore then None
      else
        match scan 0 false s with
        | Some (n, rest) =>
            if (List.length rest =? List.length s)%nat then None
            else match skip_spaces rest with
                 | [] => Some (sign * n)
                 | _ :: _ => None
                 end
        | None => None
        end
  end.

End PyInt.

(** ** The [uuid.UUID] constructor, called with one positional argument *)

Module Uuid.

(** [UUID(hex)].  The argument list is checked first ([None] counts as
    "not given"); then the text methods are looked up on [hex], which only
    a [str] answers with [str] arguments; then the length and the digits
    are checked.  Two messages are shortened: the interpreter names the
    sentinel in its [AttributeError], and appends the offending literal to
    the [ValueError] of [int]. *)
Definition new (hex : Val) : Result Val :=
  match hex with
  | None_ =>
      Raise (TypeError "one of the hex, bytes, bytes_le, fields, or int arguments must be given")
  | Str s =>
      let h := PyStr.remove "uuid:" (PyStr.remove "urn:" s) in
      let h := PyStr.remove "-" (PyStr.strip "{}" h) in
      if negb (String.length h =? 32)%nat then
        Raise (ValueError "badly formed hexadecimal UUID string")
      else
        match PyInt.parse16 h with
        | None => Raise (ValueError "invalid literal for int() with base 16")
        | Some n =>
            if (0 <=? n) && (n <? 2 ^ 128) then Ok (UUID n)
            else Raise (ValueError "int is out of range (need a 128-bit value)")
        end
  | Bytes _ => Raise (TypeError "a bytes-like object is required, not 'str'")
  | Bool _ => Raise (AttributeError "'bool' object has no attribute 'replace'")
  | Int _ => Raise (AttributeError "'int' object has no attribute 'replace'")
  | UUID _ => Raise (AttributeError "'UUID' object has no attribute 'replace'")
  | Undefined => Raise (AttributeError "object has no attribute 'replace'")
  end.

End Uuid.

(** ** Calling a Python function: binding arguments to parameters *)

Module Call.

Inductive Kind : Type := POSITIONAL_OR_KEYWORD | KEYWORD_ONLY.

Section Binding.
Context {V : Type}.

(** A parameter of a [def]: its name, whether it comes after the bare
    [*], and its default value if it has one. *)
Record Param : Type := mkParam {
  pname : string;
  kind : Kind;
  default : option V;
}.

(** A signature; [var_keyword] is the name of a [**kwargs] parameter. *)
Record Signature : Type := mkSignature {
  params : list Param;
  var_keyword : option string;
}.

(** The arguments of one call, in the order they are written. *)
Record Args : Type := mkArgs {
  positional : list V;
  keywords : list (string * V);
}.

(** What a successful binding gives the function body: its named
    parameters, and the dictionary collected by [**kwargs]. *)
Record Bound : Type := mkBound {
  locals : gmap string V;
  extra : gmap string V;
}.

Definition is_param (sig : Signature) (k : string) : bool :=
  existsb (fun p => String.eqb (pname p) k) (params sig).

(** Positional arguments fill the positional parameters from the left;
    the second component is what is left over. *)
Fixpoint bind_positional (ps : list Param) (args : list V)
  : gmap string V * list V :=
  match ps, args with
  | p :: ps', a :: args' =>
      match kind p with
      | POSITIONAL_OR_KEYWORD =>
          let '(env, rest) := bind_positional ps' args' in
          (<[pname p := a]> env, rest)
      | KEYWORD_ONLY => bind_positional ps' args
      end
  | _, _ => (∅, args)
  end.

Fixpoint bind_keywords (sig : Signature) (kws : list (string * V))
    (b : Bound) : Result Bound :=
  match kws with
  | [] => Ok b
  | (k, v) :: kws' =>
      if is_param sig k then
        match locals b !! k with
        | Some _ => Raise (TypeError "got multiple values for argument")
        | None => bind_keywords sig kws' (mkBound (<[k := v]> (locals b)) (extra b))
        end
      else
        match var_keyword sig, extra b !! k with
        | None, _ => Raise (TypeError "got an unexpected keyword argument")
        | Some _, Some _ => Raise (TypeError "got multiple values for keyword argument")
        | Some _, None => bind_keywords sig kws' (mkBound (locals b) (<[k := v]> (extra b)))
        end
  end.

Fixpoint fill_defaults (ps : list Param) (env : gmap string V)
  : Result (gmap string V) :=
  match ps with
  | [] => Ok env
  | p :: ps' =>
      match env !! pname p, default p with
      | Some _, _ => fill_defaults ps' env
      | None, Some d => fill_defaults ps' (<[pname p := d]> env)
      | None, None => Raise (TypeError "missing a required argument")
      end
  end.

Definition bind (sig : Signature) (a : Args) : Result Bound :=
  let '(env, rest) := bind_positional (params sig) (positional a) in
  b ← bind_keywords sig (keywords a) (mkBound env ∅);
  match rest with
  | _ :: _ => Raise (TypeError "takes fewer positional arguments than were given")
  | [] =>
      env' ← fill_defaults (params sig) (locals b);
      Ok (mkBound env' (extra b))
  end.

End Binding.

Arguments Param : clear implicits.
Arguments Signature : clear implicits.
Arguments Args : clear implicits.
Arguments Bound : clear implicits.

End Call.

(** ** Settings, owners and validators *)

(** A [Settings] instance, by identity. *)
Definition Owner : Type := nat.

(** The types used as type hints. *)
Inductive PyType : Type := TyBool | TyInt | TyStr | TyBytes | TyUUID.

#[global] Instance PyType_eq_dec : EqDecision PyType.
Proof. solve_decision. Defined.

(** Modelled from the spec: the [Setting] class is not among the sources.
    These are the attributes of a setting other than its validators: the
    name it was bound to (none before binding), the initial value, the
    documentation, the type hint and the override flag. *)
Record SettingAttrs : Type := mkAttrs {
  name : option string;
  value : Val;
  doc : string;
  type_hint : option PyType;
  override : bool;
}.

(** What can be passed to a validator: a plain value, the owner, or the
    setting (seen through its attributes). *)
Inductive Arg : Type :=
| AVal (v : Val)
| AOwner (o : Owner)
| ASetting (s : SettingAttrs).

Module Validator.

(** [Validator.__call__(self, value, *, name=None, owner=None,
    setting=None)], as seen by the caller of a validator. *)
Definition __call__ : Call.Signature Arg :=
  Call.mkSignature
    [ Call.mkParam "value" Call.POSITIONAL_OR_KEYWORD None;
      Call.mkParam "name" Call.KEYWORD_ONLY (Some (AVal None_));
      Call.mkParam "owner" Call.KEYWORD_ONLY (Some (AVal None_));
      Call.mkParam "setting" Call.KEYWORD_ONLY (Some (AVal None_)) ]
    None.

(** A validator: an identity and a body, which reads its parameters and
    returns ([None]) or raises ([Some e]). *)
Record t : Type := mk {
  id : nat;
  body : gmap string Arg -> option Exn;
}.

(** Calling a conforming validator: the arguments are bound against the
    protocol's signature, then the body runs. *)
Definition call (v : t) (a : Call.Args Arg) : Result unit :=
  b ← Call.bind __call__ a;
  match body v (Call.locals b) with
  | None => Ok tt
  | Some e => Raise e
  end.

End Validator.

(** ** The state the descriptors act on *)

(** Modelled from the spec: value storage is per instance.  [store] has
    one slot per owner and setting name.  [calls] records, in order, every
    validator invocation that took place: the validator's identity and the
    arguments of the call. *)
Record World : Type := mkWorld {
  store : gmap (Owner * option string) Val;
  calls : list (nat * Call.Args Arg);
}.

Definition empty_world : World := mkWorld ∅ [].

(** Computations that read and write the world and may raise.  What was
    done before an exception was raised stays done. *)
Definition M (A : Type) : Type := World -> Result A * World.

#[global] Instance M_ret : MRet M := fun _ a w => (Ok a, w).
#[global] Instance M_bind : MBind M := fun _ _ f m w =>
  match m w with
  | (Ok a, w') => f a w'
  | (Raise e, w') => (Raise e, w')
  end.

Definition lift {A} (r : Result A) : M A := fun w => (r, w).

Definition store_set (k : Owner * option string) (v : Val) : M unit :=
  fun w => (Ok tt, mkWorld (<[k := v]> (store w)) (calls w)).

Definition invoke (v : Validator.t) (a : Call.Args Arg) : M unit :=
  fun w => (Validator.call v a,
            mkWorld (store w) (calls w ++ [(Validator.id v, a)])).

(** ** The base [Setting] descriptor *)

Module Setting.

(** Modelled from the spec: the [Setting] class is not among the sources.
    A setting has its attributes and an ordered sequence of validators. *)
Record t : Type := mk {
  attrs :> SettingAttrs;
  validators : list Validator.t;
}.

(** Modelled from the spec: [Setting.__init__] is not among the sources.
    A setting is constructed with an initial value (or [Undefined]), a
    documentation string, ordered validators, an optional type hint and
    an override flag; it has no name until it is bound. *)
Definition __init__ (value : Val) (doc : string)
    (validators : list Validator.t) (type_hint : option PyType)
    (override : bool) : t :=
  mk (mkAttrs None value doc type_hint override) validators.

(** Modelled from the spec: name binding ([§4.2]) is not among the
    sources.  The setting is told its attribute name. *)
Definition bind (n : string) (s : t) : t :=
  mk (mkAttrs (Some n) (value s) (doc s) (type_hint s) (override s))
     (validators s).

(** Modelled from the spec: the [name] handed to validators is the
    setting's name, [None] while it has none. *)
Definition name_arg (s : t) : Arg :=
  match name s with
  | Some n => AVal (Str n)
  | None => AVal None_
  end.

(** Modelled from the spec: the call site of the validators is not among
    the sources.  Each validator is called as
    [validator(val, name=self.name, owner=owner, setting=self)]. *)
Definition validator_args (self : t) (owner : Owner) (val : Val)
  : Call.Args Arg :=
  Call.mkArgs [AVal val]
    [("name", name_arg self); ("owner", AOwner owner);
     ("setting", ASetting self)].

(** Modelled from the spec: the validator loop is not among the sources.
    The validators run in order; one that raises ends the loop. *)
Fixpoint run_validators (vs : list Validator.t) (a : Call.Args Arg)
  : M unit :=
  match vs with
  | [] => mret tt
  | v :: vs' => invoke v a ≫= fun _ => run_validators vs' a
  end.

(** Modelled from the spec: [Setting.get_value] is not among the sources.
    It returns the value bound for the owner, whatever was stored; while
    nothing was stored for the owner it falls back to the initial value,
    and fails with [UninitializedError] when that is the [Undefined]
    sentinel. *)
Definition get_value (self : t) (owner : Owner) : M Val :=
  fun w =>
    match store w !! (owner, name self) with
    | Some v => (Ok v, w)
    | None =>
        if decide (value self = Undefined)
        then (Raise UninitializedError, w)
        else (Ok (value self), w)
    end.

(** Modelled from the spec: [Setting.set_value] is not among the sources.
    It runs each validator in declaration order with
    [(value, name, owner, setting)]; the first validator that raises stops
    the chain and its error propagates; otherwise the value is stored in
    the owner's slot. *)
Definition set_value (self : t) (owner : Owner) (val : Val) : M unit :=
  run_validators (validators self) (validator_args self owner val) ≫= fun _ =>
  store_set (owner, name self) val.

End Setting.

Coercion Setting.attrs : Setting.t >-> SettingAttrs.

(** ** [UUIDSetting] *)

Module UUIDSetting.

(** What a caller can pass to the constructor: a plain value, a tuple of
    validators, or a type. *)
Inductive InitArg : Type :=
| IVal (v : Val)
| IValidators (vs : list Validator.t)
| IType (t : PyType).

(** The parameters of [UUIDSetting.__init__] after [self]. *)
Definition signature : Call.Signature InitArg :=
  Call.mkSignature
    [ Call.mkParam "value" Call.POSITIONAL_OR_KEYWORD (Some (IVal Undefined));
      Call.mkParam "doc" Call.KEYWORD_ONLY (Some (IVal (Str "")));
      Call.mkParam "validators" Call.KEYWORD_ONLY (Some (IValidators []));
      Call.mkParam "override" Call.KEYWORD_ONLY (Some (IVal (Bool false))) ]
    (Some "ignore").

(** [UUIDSetting.__init__]: [ignore] is the dictionary of the keyword
    arguments that match no named parameter; the body does not read it. *)
Definition __init__ (value : Val) (doc : string)
    (validators : list Validator.t) (override : bool)
    (ignore : gmap string InitArg) : Setting.t :=
  Setting.__init__ value doc validators (Some TyUUID) override.

Section SetValue.
(** [super().set_value] *)
Variable super_set_value : Setting.t -> Owner -> Val -> M unit.

(** [UUIDSetting.set_value]: the result of [UUID(val)] replaces [val];
    a [ValueError] is swallowed and leaves [val] as it was; any other
    exception leaves the method. *)
Definition set_value_with (self : Setting.t) (owner : Owner) (val : Val)
  : M unit :=
  match Uuid.new val with
  | Ok u => super_set_value self owner u
  | Raise e =>
      if is_ValueError e then super_set_value self owner val
      else lift (Raise e)
  end.
End SetValue.

Definition set_value : Setting.t -> Owner -> Val -> M unit :=
  set_value_with Setting.set_value.

(** [get_value] is inherited. *)
Definition get_value : Setting.t -> Owner -> M Val := Setting.get_value.

(** What the coercion step hands to the base class when it does not
    raise. *)
Definition coerced (val : Val) : Val :=
  match Uuid.new val with
  | Ok u => u
  | Raise _ => val
  end.

End UUIDSetting.

(** ** The [Settings] container *)

Module Settings.

(** Modelled from the spec: override resolution is not among the sources.
    An overriding setting replaces the attributes of the one it shadows
    and keeps that one's validator chain unless it brings its own. *)
Definition merge (old new : Setting.t) : Setting.t :=
  Setting.mk new
    (match Setting.validators new with
     | [] => Setting.validators old
     | _ :: _ => Setting.validators new
     end).

(** Modelled from the spec: class construction of a [Settings] container
    is not among the sources.  The declarations of the class body are
    taken in order on top of the settings collected so far; a declaration
    whose name is already taken replaces the earlier setting when it is
    marked [override=True] and is a [SettingNameConflict] otherwise; each
    accepted setting is told its name. *)
Fixpoint declare (body : list (string * Setting.t))
    (cls : gmap string Setting.t) : Result (gmap string Setting.t) :=
  match body with
  | [] => Ok cls
  | (n, s) :: body' =>
      match cls !! n with
      | None => declare body' (<[n := Setting.bind n s]> cls)
      | Some old =>
          if override s
          then declare body' (<[n := Setting.bind n (merge old s)]> cls)
          else Raise (SettingNameConflict n)
      end
  end.

(** Modelled from the spec: the settings inherited from the base
    containers, the leftmost base winning. *)
Definition inherited (bases : list (gmap string Setting.t))
  : gmap string Setting.t := ⋃ bases.

(** Modelled from the spec: constructing a container class from its bases
    and the declarations of its body. *)
Definition new_class (bases : list (gmap string Setting.t))
    (body : list (string * Setting.t)) : Result (gmap string Setting.t) :=
  declare body (inherited bases).

End Settings.

(** ** The package's [__init__] module *)

Module Package.

Definition PY_36 : Z * Z := (3, 6).

(** [<] on pairs of integers: lexicographic. *)
Definition tuple_lt (a b : Z * Z) : bool :=
  (a.1 <? b.1) || ((a.1 =? b.1) && (a.2 <? b.2)).

(** The module body.  [imports] is the outcome of the two import
    statements that precede the version check; [major] and [minor] are
    [sys.version_info.major] and [sys.version_info.minor]. *)
Definition import_ (imports : Result unit) (major minor : Z) : Result unit :=
  _ ← imports;
  let PY_VERSION := (major, minor) in
  if tuple_lt PY_VERSION PY_36
  then Raise (ImportError "Python 3.6 or higher is required by concrete_settings")
  else Ok tt.

End Package.

(** ** Vocabulary for the statements *)

(** The log entries of invoking [vs], in order, with arguments [a]. *)
Definition logged (a : Call.Args Arg) (vs : list Validator.t)
  : list (nat * Call.Args Arg) :=
  (fun v => (Validator.id v, a)) <$> vs.

(** The validator returns normally on the call [a]. *)
Definition returns (a : Call.Args Arg) (v : Validator.t) : Prop :=
  Validator.call v a = Ok tt.

(** The chain of [s] lets [v] through. *)
Definition accepts (s : Setting.t) (o : Owner) (v : Val) : Prop :=
  Forall (returns (Setting.validator_args s o v)) (Setting.validators s).

(** Nothing was stored yet for [s] on [o]. *)
Definition never_set (s : Setting.t) (o : Owner) (w : World) : Prop :=
  store w !! (o, name s) = None.

(** A validator that accepts everything, and one that checks "is a UUID
    instance". *)
Definition accept_all : Validator.t := Validator.mk 0 (fun _ => None).

Definition is_uuid : Validator.t :=
  Validator.mk 1 (fun env =>
    match env !! "value" with
    | Some (AVal (UUID _)) => None
    | _ => Some (ValidationError "expected a UUID")
    end).

Definition plain_uuid_setting : Setting.t :=
  Setting.bind "TOKEN" (UUIDSetting.__init__ Undefined "" [] false ∅).

Definition preset_setting : Setting.t :=
  Setting.bind "PORT" (Setting.__init__ (Int 8080) "" [accept_all] (Some TyInt) false).

Definition checked_uuid_setting : Setting.t :=
  Setting.bind "TOKEN"
    (UUIDSetting.__init__ Undefined "a token"
       [accept_all; is_uuid; accept_all] false ∅).

(** * Properties *)

(** ** The [uuid.UUID] constructor *)

Example uuid_ok :
  Uuid.new (Str "123e4567-e89b-12d3-a456-426614174000")
  = Ok (UUID 0x123e4567e89b12d3a456426614174000).
Proof. vm_compute. reflexivity. Qed.

Example uuid_bad : Uuid.new (Str "not-a-uuid")
  = Raise (ValueError "badly formed hexadecimal UUID string").
Proof. vm_compute. reflexivity. Qed.

Example uuid_urn :
  Uuid.new (Str "urn:uuid:{123E4567-e89b-12d3-a456-426614174000}")
  = Ok (UUID 0x123e4567e89b12d3a456426614174000).
Proof. vm_compute. reflexivity. Qed.

(** ** The validator chain *)

Section Chain.
Implicit Types (vs : list Validator.t) (a : Call.Args Arg) (w : World).

Lemma call_cases v a : returns a v \/ exists e, Validator.call v a = Raise e.
Proof.
  unfold returns. destruct (Validator.call v a) as [[]|e]; eauto.
Qed.

Lemma run_validators_cons v vs a w :
  Setting.run_validators (v :: vs) a w =
  match Validator.call v a with
  | Ok _ => Setting.run_validators vs a
              (mkWorld (store w) (calls w ++ [(Validator.id v, a)]))
  | Raise e => (Raise e, mkWorld (store w) (calls w ++ [(Validator.id v, a)]))
  end.
Proof.
  cbn [Setting.run_validators]. unfold mbind, M_bind, invoke.
  destruct (Validator.call v a); reflexivity.
Qed.

Lemma run_validators_all_ok vs a w :
  Forall (returns a) vs ->
  Setting.run_validators vs a w
  = (Ok tt, mkWorld (store w) (calls w ++ logged a vs)).
Proof.
  intros Hall. revert w.
  induction Hall as [|v vs Hv _ IH]; intros w.
  - cbn. unfold mret, M_ret. destruct w; cbn. by rewrite app_nil_r.
  - rewrite run_validators_cons, Hv, IH. cbn.
    by rewrite <- app_assoc.
Qed.

Lemma run_validators_first_raise pre v post a e w :
  Forall (returns a) pre ->
  Validator.call v a = Raise e ->
  Setting.run_validators (pre ++ v :: post) a w
  = (Raise e, mkWorld (store w) (calls w ++ logged a (pre ++ [v]))).
Proof.
  intros Hpre Hv. revert w.
  induction Hpre as [|u pre Hu _ IH]; intros w.
  - cbn [app]. by rewrite run_validators_cons, Hv.
  - cbn [app]. rewrite run_validators_cons, Hu, IH. cbn.
    by rewrite <- app_assoc.
Qed.

(** Every run of a chain either goes through all of it, or stops at the
    first validator that raises. *)
Lemma run_validators_outcome vs a w :
  (Forall (returns a) vs /\
   Setting.run_validators vs a w
   = (Ok tt, mkWorld (store w) (calls w ++ logged a vs)))
  \/
  (exists i v e,
      vs !! i = Some v /\ Validator.call v a = Raise e /\
      Forall (returns a) (take i vs) /\
      Setting.run_validators vs a w
      = (Raise e, mkWorld (store w) (calls w ++ logged a (take (S i) vs)))).
Proof.
  assert (Hsplit : Forall (returns a) vs \/
            exists pre v post e, vs = pre ++ v :: post /\
              Forall (returns a) pre /\ Validator.call v a = Raise e).
  { induction vs as [|u vs IH]; [by left|].
    destruct (call_cases u a) as [Hu|[e He]].
    - destruct IH as [IH|(pre & v & post & e & -> & Hpre & Hv)].
      + left. by constructor.
      + right. exists (u :: pre), v, post, e. split_and!; [done| |done].
        by constructor.
    - right. exists [], u, vs, e. split_and!; [done|constructor|done]. }
  destruct Hsplit as [Hall|(pre & v & post & e & -> & Hpre & Hv)].
  - left. split; [done|]. by apply run_validators_all_ok.
  - right. exists (length pre), v, e.
    rewrite (run_validators_first_raise _ _ _ _ e) by done.
    split_and!.
    + by rewrite list_lookup_middle.
    + done.
    + by rewrite take_app_length.
    + replace (pre ++ v :: post) with ((pre ++ [v]) ++ post)
        by (by rewrite <- app_assoc).
      replace (S (length pre)) with (length (pre ++ [v]))
        by (rewrite length_app; cbn; lia).
      by rewrite take_app_length.
Qed.

Lemma set_value_unfold (s : Setting.t) (o : Owner) (val : Val) w :
  Setting.set_value s o val w =
  match Setting.run_validators (Setting.validators s)
          (Setting.validator_args s o val) w with
  | (Ok _, w') => (Ok tt, mkWorld (<[(o, name s) := val]> (store w')) (calls w'))
  | (Raise e, w') => (Raise e, w')
  end.
Proof.
  unfold Setting.set_value, mbind, M_bind, store_set.
  by destruct (Setting.run_validators _ _ w) as [[[]|e] w'].
Qed.

End Chain.

(** ** Reading and writing a setting *)

Section Descriptor.
Implicit Types (s : Setting.t) (o : Owner) (v val : Val) (w : World).

Lemma set_value_accepts s o v w :
  accepts s o v ->
  Setting.set_value s o v w
  = (Ok tt, mkWorld (<[(o, name s) := v]> (store w))
              (calls w ++ logged (Setting.validator_args s o v)
                                 (Setting.validators s))).
Proof.
  intros Hacc. rewrite set_value_unfold.
  by rewrite run_validators_all_ok.
Qed.

Lemma set_value_stored s o v w w' :
  Setting.set_value s o v w = (Ok tt, w') ->
  store w' !! (o, name s) = Some v.
Proof.
  rewrite set_value_unfold.
  destruct (Setting.run_validators _ _ w) as [[[]|e] w1]; [|done].
  intros [= <-]. cbn. apply lookup_insert_eq.
Qed.

Lemma get_value_stored s o v w :
  store w !! (o, name s) = Some v ->
  Setting.get_value s o w = (Ok v, w).
Proof. intros H. unfold Setting.get_value. by rewrite H. Qed.

Lemma never_set_empty s o : never_set s o empty_world.
Proof. apply lookup_empty. Qed.

(** Storage is per owner: writing through another owner leaves the slot
    as it was. *)
Lemma set_value_other_owner s s' o o' v w :
  o <> o' ->
  store (Setting.set_value s' o' v w).2 !! (o, name s) = store w !! (o, name s).
Proof.
  intros Hne. rewrite set_value_unfold.
  destruct (run_validators_outcome (Setting.validators s')
              (Setting.validator_args s' o' v) w)
    as [[_ ->]|(i & u & e & _ & _ & _ & ->)]; cbn; [|done].
  apply lookup_insert_ne. congruence.
Qed.

End Descriptor.

Example malformed_text_is_rejected_by_validator :
  UUIDSetting.set_value checked_uuid_setting 7%nat (Str "not-a-uuid") empty_world
  = (Raise (ValidationError "expected a UUID"),
     mkWorld ∅ (logged (Setting.validator_args checked_uuid_setting 7%nat
                          (Str "not-a-uuid")) [accept_all; is_uuid])).
Proof. reflexivity. Qed.

Example uuid_instance_is_not_accepted :
  UUIDSetting.set_value plain_uuid_setting 7%nat (UUID 5) empty_world
  = (Raise (AttributeError "'UUID' object has no attribute 'replace'"),
     empty_world).
Proof. reflexivity. Qed.

(** ** Coercion in [UUIDSetting.set_value] *)

(** A text argument can only fail with a [ValueError]. *)
Lemma uuid_of_text_fails_with_ValueError (s : string) (e : Exn) :
  Uuid.new (Str s) = Raise e -> is_ValueError e = true.
Proof.
  unfold Uuid.new.
  repeat match goal with
         | |- context [if ?b then _ else _] => destruct b
         | |- context [match ?x with Some _ => _ | None => _ end] => destruct x
         end; intros [= <-]; reflexivity.
Qed.

(** C1, as the code has it: when [UUID(val)] fails with a [ValueError],
    [UUIDSetting.set_value] does not raise from the coercion step and hands
    the raw [val], unchanged, to the base class's [set_value] -- whatever
    that method does. *)
Theorem C1_value_error_falls_back_to_raw_value
    (super_set_value : Setting.t -> Owner -> Val -> M unit)
    (self : Setting.t) (owner : Owner) (val : Val) (e : Exn) (w : World) :
  Uuid.new val = Raise e ->
  is_ValueError e = true ->
  UUIDSetting.set_value_with super_set_value self owner val w
  = super_set_value self owner val w.
Proof.
  intros Hnew Hve. unfold UUIDSetting.set_value_with.
  by rewrite Hnew, Hve.
Qed.

Lemma C1_value_error_falls_back_to_raw_value_witness :
  Uuid.new (Str "not-a-uuid")
  = Raise (ValueError "badly formed hexadecimal UUID string") /\
  UUIDSetting.set_value_with Setting.set_value plain_uuid_setting 7%nat
    (Str "not-a-uuid") empty_world
  = Setting.set_value plain_uuid_setting 7%nat (Str "not-a-uuid") empty_world.
Proof.
  split; [reflexivity|].
  apply (C1_value_error_falls_back_to_raw_value Setting.set_value
           plain_uuid_setting 7%nat (Str "not-a-uuid")
           (ValueError "badly formed hexadecimal UUID string") empty_world);
    reflexivity.
Defined.

(** C1, as stated, fails: the coercion of a value that is not text fails
    with an exception that is no [ValueError], and that exception leaves
    [set_value]; the base class never sees the value. *)
Lemma C1_counterexample :
  ~ (forall (super_set_value : Setting.t -> Owner -> Val -> M unit)
            (self : Setting.t) (owner : Owner) (val : Val) (w : World),
        raises (Uuid.new val) ->
        UUIDSetting.set_value_with super_set_value self owner val w
        = super_set_value self owner val w).
Proof.
  intros H.
  specialize (H Setting.set_value plain_uuid_setting 7%nat (Int 5) empty_world).
  assert (Hr : raises (Uuid.new (Int 5))) by (eexists; reflexivity).
  specialize (H Hr). vm_compute in H. discriminate H.
Qed.

(** C2: the well-formed text is stored, and read back, as the parsed UUID;
    the malformed text is stored, and read back, as it was given -- provided
    the setting's validators let the value through (a setting declared
    without validators always does). *)
Theorem C2_uuid_text_is_parsed_and_malformed_text_is_kept
    (s : Setting.t) (o : Owner) (w : World) :
  let parsed := UUID 0x123e4567e89b12d3a456426614174000 in
  let raw := Str "not-a-uuid" in
  (accepts s o parsed ->
   exists w',
     UUIDSetting.set_value s o (Str "123e4567-e89b-12d3-a456-426614174000") w
     = (Ok tt, w') /\
     store w' !! (o, name s) = Some parsed /\
     UUIDSetting.get_value s o w' = (Ok parsed, w')) /\
  (accepts s o raw ->
   Uuid.new raw = Raise (ValueError "badly formed hexadecimal UUID string") /\
   exists w',
     UUIDSetting.set_value s o raw w = (Ok tt, w') /\
     store w' !! (o, name s) = Some raw /\
     UUIDSetting.get_value s o w' = (Ok raw, w')).
Proof.
  intros parsed raw.
  assert (Hstore : forall v, accepts s o v -> exists w',
             Setting.set_value s o v w = (Ok tt, w') /\
             store w' !! (o, name s) = Some v /\
             UUIDSetting.get_value s o w' = (Ok v, w')).
  { intros v Hacc. eexists. split; [by apply set_value_accepts|].
    split; [apply lookup_insert_eq|].
    apply get_value_stored. apply lookup_insert_eq. }
  split; intros Hacc.
  - apply (Hstore parsed Hacc).
  - split; [reflexivity|]. apply (Hstore raw Hacc).
Qed.

Lemma C2_uuid_text_is_parsed_and_malformed_text_is_kept_witness :
  accepts plain_uuid_setting 7%nat (UUID 0x123e4567e89b12d3a456426614174000) /\
  accepts plain_uuid_setting 7%nat (Str "not-a-uuid") /\
  (exists w',
     UUIDSetting.set_value plain_uuid_setting 7%nat
       (Str "123e4567-e89b-12d3-a456-426614174000") empty_world = (Ok tt, w') /\
     store w' !! (7%nat, name plain_uuid_setting)
     = Some (UUID 0x123e4567e89b12d3a456426614174000) /\
     UUIDSetting.get_value plain_uuid_setting 7%nat w'
     = (Ok (UUID 0x123e4567e89b12d3a456426614174000), w')) /\
  (exists w',
     UUIDSetting.set_value plain_uuid_setting 7%nat (Str "not-a-uuid")
       empty_world = (Ok tt, w') /\
     store w' !! (7%nat, name plain_uuid_setting) = Some (Str "not-a-uuid") /\
     UUIDSetting.get_value plain_uuid_setting 7%nat w'
     = (Ok (Str "not-a-uuid"), w')).
Proof.
  assert (H1 : accepts plain_uuid_setting 7%nat
                 (UUID 0x123e4567e89b12d3a456426614174000)) by constructor.
  assert (H2 : accepts plain_uuid_setting 7%nat (Str "not-a-uuid")) by constructor.
  split; [exact H1|]. split; [exact H2|]. split.
  - exact (proj1 (C2_uuid_text_is_parsed_and_malformed_text_is_kept
                    plain_uuid_setting 7%nat empty_world) H1).
  - exact (proj2 (proj2 (C2_uuid_text_is_parsed_and_malformed_text_is_kept
                           plain_uuid_setting 7%nat empty_world) H2)).
Defined.

(** ** The validator chain in [set_value] *)

(** C3: if, during [set_value], the validator at position [i] is invoked and
    raises, then the call raises that same error, the store is what it was,
    the validators invoked are exactly those at positions [0..i] in order
    (none after [i]), and each validator before [i] returned normally. *)
Theorem C3_raising_validator_stops_the_chain
    (s : Setting.t) (o : Owner) (val : Val) (w : World)
    (i : nat) (v : Validator.t) (e : Exn) :
  let a := Setting.validator_args s o val in
  let out := Setting.set_value s o val w in
  Setting.validators s !! i = Some v ->
  Validator.call v a = Raise e ->
  (length (calls w) + i < length (calls out.2))%nat ->
  out.1 = Raise e /\
  store out.2 = store w /\
  calls out.2 = calls w ++ logged a (take (S i) (Setting.validators s)) /\
  Forall (returns a) (take i (Setting.validators s)).
Proof.
  intros a out Hi Hv Hinvoked. subst out.
  rewrite set_value_unfold in *. fold a in Hinvoked |- *.
  destruct (run_validators_outcome (Setting.validators s) a w)
    as [[Hall _]|(j & u & e' & Hj & Hu & Hpre & Hrun)].
  - (* every validator returns: [v] cannot raise *)
    rewrite Forall_lookup in Hall. specialize (Hall i v Hi).
    unfold returns in Hall. congruence.
  - rewrite Hrun in *. cbn in Hinvoked |- *.
    assert (Hlen : (S j <= length (Setting.validators s))%nat).
    { apply lookup_lt_Some in Hj. lia. }
    unfold logged in Hinvoked.
    rewrite length_app, length_fmap, length_take in Hinvoked.
    assert (Hij : i = j).
    { destruct (decide (i < j)%nat) as [Hlt|Hge]; [|lia].
      rewrite Forall_lookup in Hpre.
      specialize (Hpre i v). rewrite lookup_take_lt in Hpre by done.
      specialize (Hpre Hi). unfold returns in Hpre. congruence. }
    subst j. assert (u = v) by congruence. subst u.
    assert (e' = e) by congruence. subst e'. done.
Qed.

Lemma C3_raising_validator_stops_the_chain_witness :
  let s := checked_uuid_setting in
  let a := Setting.validator_args s 7%nat (Str "not-a-uuid") in
  let out := Setting.set_value s 7%nat (Str "not-a-uuid") empty_world in
  out.1 = Raise (ValidationError "expected a UUID") /\
  store out.2 = store empty_world /\
  calls out.2 = calls empty_world ++ logged a [accept_all; is_uuid] /\
  Forall (returns a) [accept_all].
Proof.
  apply (C3_raising_validator_stops_the_chain checked_uuid_setting 7%nat
           (Str "not-a-uuid") empty_world 1%nat is_uuid
           (ValidationError "expected a UUID")).
  - reflexivity.
  - reflexivity.
  - vm_compute. lia.
Defined.

(** C4: while nothing was stored for the owner, [get_value] fails with
    [UninitializedError] when the setting's initial value is the
    [Undefined] sentinel, and returns the initial value otherwise. *)
Theorem C4_get_value_before_set_value (s : Setting.t) (o : Owner) (w : World) :
  never_set s o w ->
  (value s = Undefined ->
   Setting.get_value s o w = (Raise UninitializedError, w)) /\
  (value s <> Undefined ->
   Setting.get_value s o w = (Ok (value s), w)).
Proof.
  intros Hnever. unfold Setting.get_value. rewrite Hnever.
  split; intros Hv; by destruct (decide (value s = Undefined)).
Qed.

Lemma C4_get_value_before_set_value_witness :
  (never_set plain_uuid_setting 7%nat empty_world /\
   value plain_uuid_setting = Undefined /\
   Setting.get_value plain_uuid_setting 7%nat empty_world
   = (Raise UninitializedError, empty_world)) /\
  (never_set preset_setting 7%nat empty_world /\
   value preset_setting <> Undefined /\
   Setting.get_value preset_setting 7%nat empty_world
   = (Ok (Int 8080), empty_world)).
Proof.
  split.
  - split; [apply never_set_empty|]. split; [reflexivity|].
    apply (proj1 (C4_get_value_before_set_value plain_uuid_setting 7%nat
                    empty_world (never_set_empty _ _))).
    reflexivity.
  - split; [apply never_set_empty|]. split; [discriminate|].
    apply (proj2 (C4_get_value_before_set_value preset_setting 7%nat
                    empty_world (never_set_empty _ _))).
    discriminate.
Defined.

(** C6: after a successful [set_value(v)], [get_value()] returns [v] for the
    base setting; for a [UUIDSetting] it returns what the coercion made of
    [v]: [UUID(v)] when that succeeds, [v] itself otherwise. *)
Theorem C6_set_then_get_round_trip
    (s : Setting.t) (o : Owner) (v : Val) (w w' : World) :
  (Setting.set_value s o v w = (Ok tt, w') ->
   Setting.get_value s o w' = (Ok v, w')) /\
  (UUIDSetting.set_value s o v w = (Ok tt, w') ->
   UUIDSetting.get_value s o w' = (Ok (UUIDSetting.coerced v), w') /\
   (forall u, Uuid.new v = Ok u -> UUIDSetting.coerced v = u) /\
   (raises (Uuid.new v) -> UUIDSetting.coerced v = v)).
Proof.
  split.
  - intros Hset. apply get_value_stored. by eapply set_value_stored.
  - unfold UUIDSetting.set_value, UUIDSetting.set_value_with,
      UUIDSetting.get_value, UUIDSetting.coerced.
    destruct (Uuid.new v) as [u|e] eqn:Hnew.
    + intros Hset. split_and!.
      * apply get_value_stored. by eapply set_value_stored.
      * by intros ? [= <-].
      * by intros [? [=]].
    + destruct (is_ValueError e); [|by intros [=]].
      intros Hset. split_and!.
      * apply get_value_stored. by eapply set_value_stored.
      * by intros ? [=].
      * done.
Qed.

Lemma C6_set_then_get_round_trip_witness :
  let text := Str "123e4567-e89b-12d3-a456-426614174000" in
  let w1 := (Setting.set_value preset_setting 7%nat (Int 443) empty_world).2 in
  let w2 := (UUIDSetting.set_value plain_uuid_setting 7%nat text empty_world).2 in
  (Setting.set_value preset_setting 7%nat (Int 443) empty_world = (Ok tt, w1) /\
   Setting.get_value preset_setting 7%nat w1 = (Ok (Int 443), w1)) /\
  (UUIDSetting.set_value plain_uuid_setting 7%nat text empty_world = (Ok tt, w2) /\
   UUIDSetting.get_value plain_uuid_setting 7%nat w2
   = (Ok (UUID 0x123e4567e89b12d3a456426614174000), w2)).
Proof.
  intros text w1 w2. split.
  - split; [reflexivity|].
    apply (proj1 (C6_set_then_get_round_trip preset_setting 7%nat (Int 443)
                    empty_world w1)).
    reflexivity.
  - split; [reflexivity|].
    apply (proj2 (C6_set_then_get_round_trip plain_uuid_setting 7%nat text
                    empty_world w2)).
    reflexivity.
Defined.

(** C7: [set_value] really invokes its validators, each with the value as
    the one positional argument and [name], [owner] and [setting] by
    keyword.  Such a call binds against [Validator.__call__], where these
    three are keyword-only, so that every invocation runs the validator's
    body on exactly (value, name, owner, setting) and returns or raises as
    the body does.  The call succeeds exactly when every body returns, and
    then every validator of the chain was invoked; when it raises, the
    validators up to the first one whose body raises were invoked, and the
    error is that body's. *)
Theorem C7_validators_are_called_per_protocol
    (s : Setting.t) (o : Owner) (val : Val) (w : World) :
  let a := Setting.validator_args s o val in
  let vs := Setting.validators s in
  let env : gmap string Arg :=
    list_to_map [("value", AVal val); ("name", Setting.name_arg s);
                 ("owner", AOwner o); ("setting", ASetting s)] in
  let out := Setting.set_value s o val w in
  (exists k, calls out.2 = calls w ++ logged a (take k vs) /\
             (vs <> [] -> (0 < k)%nat)) /\
  Call.positional a = [AVal val] /\
  Call.keywords a = [("name", Setting.name_arg s); ("owner", AOwner o);
                     ("setting", ASetting s)] /\
  Call.bind Validator.__call__ a = Ok (Call.mkBound env ∅) /\
  (fun p => (Call.pname p, Call.kind p)) <$> Call.params Validator.__call__
  = [("value", Call.POSITIONAL_OR_KEYWORD); ("name", Call.KEYWORD_ONLY);
     ("owner", Call.KEYWORD_ONLY); ("setting", Call.KEYWORD_ONLY)] /\
  (forall v : Validator.t,
      Validator.call v a = match Validator.body v env with
                           | None => Ok tt
                           | Some e => Raise e
                           end) /\
  (out.1 = Ok tt <-> Forall (fun v => Validator.body v env = None) vs) /\
  (out.1 = Ok tt -> calls out.2 = calls w ++ logged a vs) /\
  (forall e, out.1 = Raise e ->
     exists i v,
       vs !! i = Some v /\ Validator.body v env = Some e /\
       Forall (fun u => Validator.body u env = None) (take i vs) /\
       calls out.2 = calls w ++ logged a (take (S i) vs)).
Proof.
  intros a vs env out.
  assert (Hcall : forall v : Validator.t,
             Validator.call v a = match Validator.body v env with
                                  | None => Ok tt
                                  | Some e => Raise e
                                  end) by (intros v; reflexivity).
  assert (Hret : forall v, returns a v <-> Validator.body v env = None).
  { intros v. unfold returns. rewrite Hcall.
    by destruct (Validator.body v env). }
  assert (Hraise : forall v e, Validator.call v a = Raise e ->
                               Validator.body v env = Some e).
  { intros v e. rewrite Hcall.
    destruct (Validator.body v env); [by intros [= ->]|done]. }
  assert (Hout : out = match Setting.run_validators vs a w with
                       | (Ok _, w') =>
                           (Ok tt, mkWorld (<[(o, name s) := val]> (store w'))
                                     (calls w'))
                       | (Raise e, w') => (Raise e, w')
                       end) by apply set_value_unfold.
  destruct (run_validators_outcome vs a w)
    as [[Hall Hrun]|(i & u & e & Hi & Hu & Hpre & Hrun)];
    rewrite Hrun in Hout; rewrite Hout; cbn.
  - (* every validator returns *)
    split_and!; try done.
    + exists (length vs). rewrite firstn_all. split; [done|].
      destruct vs; [done|cbn; lia].
    + split; [|done]. intros _. eapply Forall_impl; [exact Hall|].
      intros v. apply Hret.
  - (* the validator at position [i] is the first to raise *)
    split_and!; try done.
    + exists (S i). split; [done|lia].
    + split; [done|]. intros Hbodies.
      rewrite Forall_lookup in Hbodies. specialize (Hbodies i u Hi).
      apply Hraise in Hu.
      assert (Hnone : Validator.body u env = None) by exact Hbodies.
      congruence.
    + intros e' [= <-]. exists i, u. split_and!; try done.
      * by apply Hraise.
      * eapply Forall_impl; [exact Hpre|]. intros v. apply Hret.
Qed.

Lemma C7_validators_are_called_per_protocol_witness :
  let s := checked_uuid_setting in
  let a := Setting.validator_args s 7%nat (Str "not-a-uuid") in
  let out := Setting.set_value s 7%nat (Str "not-a-uuid") empty_world in
  out.1 = Raise (ValidationError "expected a UUID") /\
  (exists i v,
      Setting.validators s !! i = Some v /\
      Validator.body v
        (list_to_map [("value", AVal (Str "not-a-uuid"));
                      ("name", Setting.name_arg s);
                      ("owner", AOwner 7%nat); ("setting", ASetting s)])
      = Some (ValidationError "expected a UUID") /\
      Forall (fun u =>
                Validator.body u
                  (list_to_map [("value", AVal (Str "not-a-uuid"));
                                ("name", Setting.name_arg s);
                                ("owner", AOwner 7%nat); ("setting", ASetting s)])
                = None)
             (take i (Setting.validators s)) /\
      calls out.2
      = calls empty_world ++ logged a (take (S i) (Setting.validators s))) /\
  (let out' := Setting.set_value preset_setting 7%nat (Int 443) empty_world in
   out'.1 = Ok tt /\
   calls out'.2
   = calls empty_world
     ++ logged (Setting.validator_args preset_setting 7%nat (Int 443))
          (Setting.validators preset_setting)).
Proof.
  intros s a out.
  pose proof (C7_validators_are_called_per_protocol checked_uuid_setting
                7%nat (Str "not-a-uuid") empty_world) as Hbad.
  pose proof (C7_validators_are_called_per_protocol preset_setting
                7%nat (Int 443) empty_world) as Hgood.
  cbv zeta in Hbad, Hgood.
  destruct Hbad as (_ & _ & _ & _ & _ & _ & _ & _ & Hraise).
  destruct Hgood as (_ & _ & _ & _ & _ & _ & _ & Hok & _).
  split; [reflexivity|]. split.
  - apply Hraise. reflexivity.
  - intros out'. split; [reflexivity|]. apply Hok. reflexivity.
Defined.

(** ** Argument binding *)

Section BindingFacts.
Context {V : Type}.
Implicit Types (sig : Call.Signature V) (b : Call.Bound V) (k : string).

Lemma is_param_pname sig (p : Call.Param V) :
  p ∈ Call.params sig -> Call.is_param sig (Call.pname p) = true.
Proof.
  intros Hp. unfold Call.is_param. apply existsb_exists.
  exists p. split; [by apply list_elem_of_In|]. apply String.eqb_refl.
Qed.

(** Binding fails with a [TypeError] only. *)
Lemma bind_keywords_raises sig kws b e :
  Call.bind_keywords sig kws b = Raise e -> exists msg, e = TypeError msg.
Proof.
  revert b. induction kws as [|[k v] kws IH]; intros b; cbn; [done|].
  repeat case_match; try (intros [= <-]; eauto); apply IH.
Qed.

(** A keyword that names no parameter ends up in the [**kwargs]
    dictionary, and stays there. *)
Lemma bind_keywords_extra_kept sig kws b b' k x :
  Call.bind_keywords sig kws b = Ok b' ->
  Call.extra b !! k = Some x -> Call.extra b' !! k = Some x.
Proof.
  revert b. induction kws as [|[k0 v0] kws IH]; intros b; cbn.
  - by intros [= <-].
  - repeat case_match; try done; intros Hb Hk; eapply IH; eauto; cbn.
    rewrite lookup_insert_ne; [done|]. congruence.
Qed.

Lemma bind_keywords_extra sig kws b b' k x :
  Call.bind_keywords sig kws b = Ok b' ->
  (k, x) ∈ kws -> Call.is_param sig k = false ->
  Call.extra b' !! k = Some x.
Proof.
  revert b. induction kws as [|[k0 v0] kws IH]; intros b; cbn.
  - intros _ Hin. by apply not_elem_of_nil in Hin.
  - intros Hb Hin Hk. apply elem_of_cons in Hin as [[= <- <-]|Hin].
    + rewrite Hk in Hb. repeat case_match; try done.
      eapply bind_keywords_extra_kept; [done|]. cbn. apply lookup_insert_eq.
    + repeat case_match; try done; eapply IH; eauto.
Qed.

(** Only parameters become locals. *)
Lemma bind_positional_locals (ps : list (Call.Param V)) args k :
  is_Some ((Call.bind_positional ps args).1 !! k) ->
  exists p, p ∈ ps /\ Call.pname p = k.
Proof.
  revert args. induction ps as [|p ps IH]; intros args; cbn.
  - destruct args; cbn; rewrite lookup_empty; by intros [? [=]].
  - destruct args as [|a args]; cbn.
    { rewrite lookup_empty. by intros [? [=]]. }
    destruct (Call.kind p).
    + destruct (Call.bind_positional ps args) as [env rest] eqn:Hbp. cbn.
      destruct (decide (Call.pname p = k)) as [<-|Hne].
      * intros _. exists p. split; [left|done].
      * rewrite lookup_insert_ne by done. intros Hk.
        destruct (IH args) as (q & Hq & Hqn); [by rewrite Hbp|].
        exists q. split; [by right|done].
    + intros Hk. destruct (IH _ Hk) as (q & Hq & Hqn).
      exists q. split; [by right|done].
Qed.

Lemma bind_keywords_locals sig kws b b' k :
  Call.bind_keywords sig kws b = Ok b' ->
  Call.is_param sig k = false ->
  Call.locals b !! k = None -> Call.locals b' !! k = None.
Proof.
  revert b. induction kws as [|[k0 v0] kws IH]; intros b; cbn.
  - by intros [= <-].
  - repeat case_match; try done; intros Hb Hk Hnone; eapply IH; eauto; cbn.
    rewrite lookup_insert_ne; [done|]. congruence.
Qed.

Lemma fill_defaults_locals sig (ps : list (Call.Param V)) env env' k :
  ps ⊆ Call.params sig ->
  Call.fill_defaults ps env = Ok env' ->
  Call.is_param sig k = false ->
  env !! k = None -> env' !! k = None.
Proof.
  revert env. induction ps as [|p ps IH]; intros env Hsub; cbn.
  - by intros [= <-].
  - assert (Hps : ps ⊆ Call.params sig) by set_solver.
    assert (Hp : Call.is_param sig (Call.pname p) = true)
      by (apply is_param_pname; set_solver).
    repeat case_match; try done; intros Hfd Hk Hnone; eapply IH; eauto.
    rewrite lookup_insert_ne; [done|]. congruence.
Qed.

(** A keyword argument that names no parameter of a signature with a
    [**kwargs] parameter is collected there and is no local of the body. *)
Lemma bind_unknown_keyword sig (a : Call.Args V) b k x :
  Call.bind sig a = Ok b ->
  (k, x) ∈ Call.keywords a -> Call.is_param sig k = false ->
  Call.extra b !! k = Some x /\ Call.locals b !! k = None.
Proof.
  unfold Call.bind. intros Hb Hin Hk.
  destruct (Call.bind_positional (Call.params sig) (Call.positional a))
    as [env rest] eqn:Hbp.
  assert (Henv : env !! k = None).
  { destruct (env !! k) eqn:Hl; [|done].
    destruct (bind_positional_locals (Call.params sig) (Call.positional a) k)
      as (p & Hp & <-); [rewrite Hbp; cbn; eauto|].
    apply is_param_pname in Hp. congruence. }
  unfold mbind, Result_bind in Hb.
  destruct (Call.bind_keywords sig (Call.keywords a) _) as [b1|] eqn:Hkw;
    [|done].
  destruct rest; [|done].
  destruct (Call.fill_defaults _ _) as [env'|] eqn:Hfd; [|done].
  injection Hb as <-. cbn. split.
  - eapply bind_keywords_extra; eauto.
  - eapply fill_defaults_locals; eauto.
    eapply bind_keywords_locals; eauto.
Qed.

End BindingFacts.

(** ** Declaring a [Settings] class *)

Section ClassConstruction.
Implicit Types (cls : gmap string Setting.t) (body : list (string * Setting.t)).
Implicit Types (s : Setting.t).

Lemma inherited_is_Some (bases : list (gmap string Setting.t)) base n :
base ∈ bases -> is_Some (base !! n) -> is_Some (Settings.inherited bases !! n).
Proof.
intros Hin Hsome. unfold Settings.inherited.
rewrite <- not_eq_None_Some, lookup_union_list_None, Forall_forall.
intros Hall. specialize (Hall base Hin).
rewrite Hall in Hsome. by destruct Hsome.
Qed.

(** A declaration without the override marker whose name is taken -- by
  the class so far or by an earlier declaration of the body -- makes the
  construction fail. *)
Lemma declare_conflict body cls j n s :
body !! j = Some (n, s) ->
override s = false ->
is_Some (cls !! n) \/ (exists i s0, (i < j)%nat /\ body !! i = Some (n, s0)) ->
exists m, Settings.declare body cls = Raise (SettingNameConflict m).
Proof.
revert cls j. induction body as [|[n0 s0] body IH]; intros cls j Hj Hov Htaken.
{ by rewrite lookup_nil in Hj. }
destruct j as [|j]; cbn in Hj.
- injection Hj as -> ->.
  destruct Htaken as [[old Hold]|(i & ? & Hi & _)]; [|lia].
  cbn. rewrite Hold, Hov. eauto.
- cbn.
  assert (Hnext : forall x, is_Some (<[n0 := x]> cls !! n) \/
            (exists i s1, (i < j)%nat /\ body !! i = Some (n, s1))).
  { intros x. destruct Htaken as [Hsome|(i & s1 & Hi & Hbi)].
    - left. rewrite lookup_insert_is_Some. destruct (decide (n0 = n)); eauto.
    - destruct i as [|i]; cbn in Hbi.
      + injection Hbi as -> ->. left. rewrite lookup_insert_eq. eauto.
      + right. exists i, s1. split; [lia|done]. }
  destruct (cls !! n0) as [old|].
  + destruct (override s0); [|eauto]. by eapply IH.
  + by eapply IH.
Qed.

End ClassConstruction.

(** C5: a class body that declares a name without [override=True] when the
    same name was declared earlier in the body, or is inherited from a base,
    is refused with [SettingNameConflict]. *)
Theorem C5_name_collision_without_override_fails
    (bases : list (gmap string Setting.t)) (body : list (string * Setting.t))
    (j : nat) (n : string) (s : Setting.t) :
  body !! j = Some (n, s) ->
  override s = false ->
  (exists i s0, (i < j)%nat /\ body !! i = Some (n, s0)) \/
  (exists base, base ∈ bases /\ is_Some (base !! n)) ->
  exists m, Settings.new_class bases body = Raise (SettingNameConflict m).
Proof.
  intros Hj Hov Htaken. unfold Settings.new_class.
  apply (declare_conflict body _ j n s Hj Hov).
  destruct Htaken as [Hdup|(base & Hin & Hsome)]; [by right|left].
  by eapply inherited_is_Some.
Qed.

Lemma C5_name_collision_without_override_fails_witness :
  exists m,
    Settings.new_class []
      [("TOKEN", plain_uuid_setting); ("DEBUG", checked_uuid_setting);
       ("TOKEN", checked_uuid_setting)]
    = Raise (SettingNameConflict m).
Proof.
  apply (C5_name_collision_without_override_fails []
           [("TOKEN", plain_uuid_setting); ("DEBUG", checked_uuid_setting);
            ("TOKEN", checked_uuid_setting)]
           2%nat "TOKEN" checked_uuid_setting).
  - reflexivity.
  - reflexivity.
  - left. exists 0%nat, plain_uuid_setting. split; [lia|reflexivity].
Defined.

(** ** Constructing a [UUIDSetting] *)

(** C8: whatever the arguments, the constructed setting has the type hint
    [UUID]; the constructor's result is the base constructor's with
    [type_hint=UUID] and does not depend on the ignored keywords; and a
    [type_hint] keyword given by the caller is collected by [**ignore]
    instead of reaching a named parameter. *)
Theorem C8_uuid_setting_type_hint_is_uuid :
  (forall (value : Val) (doc : string)
          (validators : list Validator.t) (override : bool)
          (ignore : gmap string UUIDSetting.InitArg),
      type_hint (UUIDSetting.__init__ value doc validators override ignore)
      = Some TyUUID /\
      UUIDSetting.__init__ value doc validators override ignore
      = Setting.__init__ value doc validators (Some TyUUID) override) /\
  (forall (a : Call.Args UUIDSetting.InitArg)
          (b : Call.Bound UUIDSetting.InitArg) (x : UUIDSetting.InitArg),
      Call.bind UUIDSetting.signature a = Ok b ->
      ("type_hint", x) ∈ Call.keywords a ->
      Call.extra b !! "type_hint" = Some x /\
      Call.locals b !! "type_hint" = None).
Proof.
  split.
  - intros. split; reflexivity.
  - intros a b x Hb Hin.
    by eapply bind_unknown_keyword.
Qed.

Lemma C8_uuid_setting_type_hint_is_uuid_witness :
  let a := Call.mkArgs
             [UUIDSetting.IVal (Str "123e4567-e89b-12d3-a456-426614174000")]
             [("doc", UUIDSetting.IVal (Str "a token"));
              ("type_hint", UUIDSetting.IType TyInt)] in
  exists b,
    Call.bind UUIDSetting.signature a = Ok b /\
    Call.extra b !! "type_hint" = Some (UUIDSetting.IType TyInt) /\
    Call.locals b !! "type_hint" = None.
Proof.
  intros a. eexists. split; [reflexivity|].
  apply (proj2 C8_uuid_setting_type_hint_is_uuid a _ (UUIDSetting.IType TyInt)).
  - reflexivity.
  - right. left.
Defined.

(** ** The version gate *)

(** C9: once the module's own imports are done, importing the package
    raises [ImportError] when the interpreter's (major, minor) is below
    (3, 6), and goes through when it is (3, 6) or above. *)
Theorem C9_version_gate (major minor : Z) :
  (major < 3 \/ (major = 3 /\ minor < 6) ->
   Package.import_ (Ok tt) major minor
   = Raise (ImportError "Python 3.6 or higher is required by concrete_settings")) /\
  (3 < major \/ (major = 3 /\ 6 <= minor) ->
   Package.import_ (Ok tt) major minor = Ok tt).
Proof.
  unfold Package.import_, Package.tuple_lt, Package.PY_36. cbn.
  split; intros H.
  - replace ((major <? 3) || (major =? 3) && (minor <? 6)) with true; [done|].
    symmetry. apply orb_true_iff. rewrite andb_true_iff.
    rewrite !Z.ltb_lt, Z.eqb_eq. lia.
  - replace ((major <? 3) || (major =? 3) && (minor <? 6)) with false; [done|].
    symmetry. apply orb_false_iff. rewrite andb_false_iff.
    rewrite !Z.ltb_ge, Z.eqb_neq. lia.
Qed.

Lemma C9_version_gate_witness :
  Package.import_ (Ok tt) 3 5
  = Raise (ImportError "Python 3.6 or higher is required by concrete_settings") /\
  Package.import_ (Ok tt) 2 7
  = Raise (ImportError "Python 3.6 or higher is required by concrete_settings") /\
  Package.import_ (Ok tt) 3 6 = Ok tt /\
  Package.import_ (Ok tt) 4 0 = Ok tt.
Proof.
  split_and!.
  - apply (proj1 (C9_version_gate 3 5)). lia.
  - apply (proj1 (C9_version_gate 2 7)). lia.
  - apply (proj2 (C9_version_gate 3 6)). lia.
  - apply (proj2 (C9_version_gate 4 0)). lia.
Defined.

(** ** The protocol's signature *)

(** C10: [name], [owner] and [setting] are keyword-only parameters whose
    default is [None]; so a call with the value as its only argument binds,
    with the three set to [None], and the validator's body runs; and a
    second positional argument is refused. *)
Theorem C10_protocol_keyword_only_defaults
    (v : Validator.t) (val : Arg) :
  Forall (fun p => Call.pname p ∈ ["name"; "owner"; "setting"] ->
                   Call.kind p = Call.KEYWORD_ONLY /\
                   Call.default p = Some (AVal None_))
         (Call.params Validator.__call__) /\
  ["name"; "owner"; "setting"] ⊆ Call.pname <$> Call.params Validator.__call__ /\
  Call.bind Validator.__call__ (Call.mkArgs [val] [])
  = Ok (Call.mkBound
          (list_to_map [("value", val); ("name", AVal None_);
                        ("owner", AVal None_); ("setting", AVal None_)]) ∅) /\
  Validator.call v (Call.mkArgs [val] [])
  = match Validator.body v
            (list_to_map [("value", val); ("name", AVal None_);
                          ("owner", AVal None_); ("setting", AVal None_)]) with
    | None => Ok tt
    | Some e => Raise e
    end /\
  (forall (second : Arg) (more : list Arg) (kws : list (string * Arg)),
      exists msg,
        Call.bind Validator.__call__ (Call.mkArgs (val :: second :: more) kws)
        = Raise (TypeError msg)).
Proof.
  split_and!.
  - unfold Validator.__call__. cbn [Call.params].
    rewrite !Forall_cons, Forall_nil. cbn.
    split_and!; try done.
    intros Hin. rewrite !elem_of_cons, elem_of_nil in Hin.
    by destruct Hin as [?|[?|[?|[]]]].
  - cbn. intros n. rewrite !elem_of_cons. tauto.
  - reflexivity.
  - reflexivity.
  - intros second more kws. unfold Call.bind. cbn.
    destruct (Call.bind_keywords Validator.__call__ kws _) as [b|e] eqn:Hkw; cbn.
    + eauto.
    + apply bind_keywords_raises in Hkw as [msg ->]. eauto.
Qed.

(** * Further properties of the embedded code *)

(** ** More on argument binding *)

Section BindingOutcome.
Context {V : Type}.
Implicit Types (sig : Call.Signature V) (b : Call.Bound V) (k : string).
Implicit Types (ps : list (Call.Param V)) (env : gmap string V).

(** A successful binding went through its three stages. *)
Lemma bind_inv sig (a : Call.Args V) b :
  Call.bind sig a = Ok b ->
  exists env b1 env',
    Call.bind_positional (Call.params sig) (Call.positional a) = (env, []) /\
    Call.bind_keywords sig (Call.keywords a) (Call.mkBound env ∅) = Ok b1 /\
    Call.fill_defaults (Call.params sig) (Call.locals b1) = Ok env' /\
    b = Call.mkBound env' (Call.extra b1).
Proof.
  unfold Call.bind.
  destruct (Call.bind_positional _ _) as [env rest].
  unfold mbind, Result_bind.
  destruct (Call.bind_keywords _ _ _) as [b1|] eqn:Hkw; [|done].
  destruct rest; [|done].
  destruct (Call.fill_defaults _ _) as [env'|] eqn:Hfd; [|done].
  intros [= <-]. by exists env, b1, env'.
Qed.

Lemma fill_defaults_raises ps env e :
  Call.fill_defaults ps env = Raise e -> exists msg, e = TypeError msg.
Proof.
  revert env. induction ps as [|p ps IH]; intros env; cbn; [done|].
  repeat case_match; try (intros [= <-]; eauto); apply IH.
Qed.

Lemma bind_raises sig (a : Call.Args V) e :
  Call.bind sig a = Raise e -> exists msg, e = TypeError msg.
Proof.
  unfold Call.bind.
  destruct (Call.bind_positional _ _) as [env rest].
  unfold mbind, Result_bind.
  destruct (Call.bind_keywords _ _ _) as [b1|e1] eqn:Hkw.
  - destruct rest; [|intros [= <-]; eauto].
    destruct (Call.fill_defaults _ _) as [env'|e2] eqn:Hfd; [done|].
    intros [= <-]. by eapply fill_defaults_raises.
  - intros [= <-]. by eapply bind_keywords_raises.
Qed.

(** Without a [**kwargs] parameter an unknown keyword is refused. *)
Lemma bind_keywords_unknown sig kws b k (x : V) :
  Call.var_keyword sig = None ->
  (k, x) ∈ kws -> Call.is_param sig k = false ->
  exists msg, Call.bind_keywords sig kws b = Raise (TypeError msg).
Proof.
  intros Hvk Hin Hk. revert b.
  induction kws as [|[k0 v0] kws IH]; intros b.
  { by apply not_elem_of_nil in Hin. }
  cbn. apply elem_of_cons in Hin as [[= <- <-]|Hin].
  - rewrite Hk, Hvk. eauto.
  - destruct (Call.is_param sig k0).
    + destruct (Call.locals b !! k0); eauto.
    + rewrite Hvk. eauto.
Qed.

Lemma bind_keywords_extra_fixed sig kws b b' :
  Call.var_keyword sig = None ->
  Call.bind_keywords sig kws b = Ok b' -> Call.extra b' = Call.extra b.
Proof.
  intros Hvk. revert b. induction kws as [|[k0 v0] kws IH]; intros b; cbn.
  - by intros [= <-].
  - destruct (Call.is_param sig k0).
    + destruct (Call.locals b !! k0); [done|].
      intros Hb. by rewrite (IH _ Hb).
    + by rewrite Hvk.
Qed.

(** A parameter that is bound stays bound to the same argument. *)
Lemma bind_keywords_locals_kept sig kws b b' k (x : V) :
  Call.bind_keywords sig kws b = Ok b' ->
  Call.locals b !! k = Some x -> Call.locals b' !! k = Some x.
Proof.
  revert b. induction kws as [|[k0 v0] kws IH]; intros b; cbn.
  - by intros [= <-].
  - repeat case_match; try done; intros Hb Hk; eapply IH; eauto; cbn.
    rewrite lookup_insert_ne; [done|]. congruence.
Qed.

(** A keyword that names a parameter is bound to it. *)
Lemma bind_keywords_param sig kws b b' k (x : V) :
  Call.bind_keywords sig kws b = Ok b' ->
  (k, x) ∈ kws -> Call.is_param sig k = true ->
  Call.locals b' !! k = Some x.
Proof.
  revert b. induction kws as [|[k0 v0] kws IH]; intros b; cbn.
  - intros _ Hin. by apply not_elem_of_nil in Hin.
  - intros Hb Hin Hk. apply elem_of_cons in Hin as [[= <- <-]|Hin].
    + rewrite Hk in Hb. destruct (Call.locals b !! k); [done|].
      eapply bind_keywords_locals_kept; [done|]. cbn. apply lookup_insert_eq.
    + repeat case_match; try done; eapply IH; eauto.
Qed.

(** A name that is not among the keywords is not bound by them. *)
Lemma bind_keywords_absent sig (kws : list (string * V)) b b' k :
  Call.bind_keywords sig kws b = Ok b' ->
  k ∉ kws.*1 ->
  Call.locals b !! k = None -> Call.locals b' !! k = None.
Proof.
  revert b. induction kws as [|[k0 v0] kws IH]; intros b; cbn.
  - by intros [= <-].
  - intros Hb Hk Hnone. apply not_elem_of_cons in Hk as [Hne Hk].
    repeat case_match; try done; eapply IH; eauto; cbn.
    by rewrite lookup_insert_ne.
Qed.

(** With a [**kwargs] parameter, distinct keywords that are not bound yet
    always bind. *)
Lemma bind_keywords_succeeds sig (kws : list (string * V)) b :
  is_Some (Call.var_keyword sig) ->
  NoDup kws.*1 ->
  (forall k, k ∈ kws.*1 ->
             Call.locals b !! k = None /\ Call.extra b !! k = None) ->
  exists b', Call.bind_keywords sig kws b = Ok b'.
Proof.
  intros [kw Hvk]. revert b.
  induction kws as [|[k0 v0] kws IH]; intros b Hnd Hfree; cbn.
  { eauto. }
  cbn in Hnd. apply NoDup_cons in Hnd as [Hk0 Hnd].
  destruct (Hfree k0) as [Hl He]; [cbn; left|].
  rewrite Hl, He, Hvk.
  assert (Hne : forall k, k ∈ kws.*1 -> k0 <> k) by (by intros k Hk ->).
  destruct (Call.is_param sig k0); apply IH; try done; cbn; intros k Hk;
    destruct (Hfree k) as [Hl' He']; try (by right);
    rewrite lookup_insert_ne by (by apply Hne); done.
Qed.

Lemma fill_defaults_kept ps env env' k (x : V) :
  Call.fill_defaults ps env = Ok env' ->
  env !! k = Some x -> env' !! k = Some x.
Proof.
  revert env. induction ps as [|p ps IH]; intros env; cbn.
  - by intros [= <-].
  - repeat case_match; try done; intros Hfd Hk; eapply IH; eauto.
    rewrite lookup_insert_ne; [done|]. congruence.
Qed.

(** After the defaults are filled in, every parameter is bound. *)
Lemma fill_defaults_complete ps env env' (p : Call.Param V) :
  Call.fill_defaults ps env = Ok env' ->
  p ∈ ps -> is_Some (env' !! Call.pname p).
Proof.
  revert env. induction ps as [|q ps IH]; intros env; cbn.
  - intros _ Hin. by apply not_elem_of_nil in Hin.
  - intros Hfd Hin. apply elem_of_cons in Hin as [->|Hin].
    + destruct (env !! Call.pname q) as [x|] eqn:Hq.
      * exists x. by eapply fill_defaults_kept.
      * destruct (Call.default q) as [d|]; [|done].
        exists d. eapply fill_defaults_kept; [done|]. apply lookup_insert_eq.
    + repeat case_match; try done; by eapply IH.
Qed.

(** A parameter that was not bound by the call gets its default. *)
Lemma fill_defaults_default ps env env' (p : Call.Param V) :
  NoDup (Call.pname <$> ps) ->
  p ∈ ps -> env !! Call.pname p = None ->
  Call.fill_defaults ps env = Ok env' ->
  env' !! Call.pname p = Call.default p.
Proof.
  revert env. induction ps as [|q ps IH]; intros env Hnd Hin Hnone; cbn.
  { by apply not_elem_of_nil in Hin. }
  cbn in Hnd. apply NoDup_cons in Hnd as [Hq Hnd].
  apply elem_of_cons in Hin as [->|Hin].
  - rewrite Hnone. destruct (Call.default q) as [d|]; [|done].
    intros Hfd. eapply fill_defaults_kept; [done|]. apply lookup_insert_eq.
  - assert (Hne : Call.pname q <> Call.pname p).
    { intros Heq. apply Hq. rewrite Heq. by apply list_elem_of_fmap_2. }
    destruct (env !! Call.pname q); [by apply IH|].
    destruct (Call.default q); [|done].
    apply IH; try done. by rewrite lookup_insert_ne.
Qed.

Lemma fill_defaults_succeeds ps env :
  Forall (fun p => is_Some (Call.default p)) ps ->
  exists env', Call.fill_defaults ps env = Ok env'.
Proof.
  intros Hall. revert env.
  induction Hall as [|p ps [d Hd] _ IH]; intros env; cbn; [eauto|].
  rewrite Hd. destruct (env !! Call.pname p); apply IH.
Qed.

(** The locals of a bound call are exactly the parameters. *)
Lemma bind_locals_only_params sig (a : Call.Args V) b k :
  Call.bind sig a = Ok b ->
  Call.is_param sig k = false -> Call.locals b !! k = None.
Proof.
  intros (env & b1 & env' & Hbp & Hkw & Hfd & ->)%bind_inv Hk. cbn.
  eapply fill_defaults_locals; eauto.
  eapply bind_keywords_locals; eauto. cbn.
  destruct (env !! k) eqn:Hl; [|done].
  destruct (bind_positional_locals (Call.params sig) (Call.positional a) k)
    as (p & Hp & <-); [rewrite Hbp; cbn; eauto|].
  apply is_param_pname in Hp. congruence.
Qed.

Lemma bind_locals_all_params sig (a : Call.Args V) b (p : Call.Param V) :
  Call.bind sig a = Ok b ->
  p ∈ Call.params sig -> is_Some (Call.locals b !! Call.pname p).
Proof.
  intros (env & b1 & env' & Hbp & Hkw & Hfd & ->)%bind_inv Hp. cbn.
  by eapply fill_defaults_complete.
Qed.

(** A keyword argument of a bound call sits where its name says. *)
Lemma bind_keyword_routed sig (a : Call.Args V) b k (x : V) :
  Call.bind sig a = Ok b -> (k, x) ∈ Call.keywords a ->
  if Call.is_param sig k
  then Call.locals b !! k = Some x
  else Call.extra b !! k = Some x /\ Call.locals b !! k = None.
Proof.
  intros Hb Hin. destruct (Call.is_param sig k) eqn:Hk.
  - apply bind_inv in Hb as (env & b1 & env' & Hbp & Hkw & Hfd & ->). cbn.
    eapply fill_defaults_kept; [done|]. by eapply bind_keywords_param.
  - by eapply bind_unknown_keyword.
Qed.

End BindingOutcome.

(** ** Calls of a validator *)

Lemma is_param_inv {V} (sig : Call.Signature V) (k : string) :
  Call.is_param sig k = true ->
  exists p, p ∈ Call.params sig /\ Call.pname p = k.
Proof.
  unfold Call.is_param. intros (p & Hp & Heq)%existsb_exists.
  exists p. split; [by apply list_elem_of_In|]. by apply String.eqb_eq.
Qed.

Lemma validator_is_param (k : string) :
  Call.is_param Validator.__call__ k = true <->
  k ∈ ["value"; "name"; "owner"; "setting"].
Proof.
  unfold Call.is_param, Validator.__call__.
  cbn [Call.params Call.pname existsb].
  rewrite !orb_true_iff, !String.eqb_eq, !elem_of_cons, elem_of_nil.
  intuition congruence.
Qed.

Lemma validator_bind_positional (v : Arg) (rest : list Arg) :
  Call.bind_positional (Call.params Validator.__call__) (v :: rest)
  = (<["value" := v]> ∅, rest).
Proof. by destruct rest. Qed.

Lemma validator_call_of_failed_binding (a : Call.Args Arg) (e : Exn) :
  Call.bind Validator.__call__ a = Raise e ->
  exists msg, forall v : Validator.t, Validator.call v a = Raise (TypeError msg).
Proof.
  intros Hb. destruct (bind_raises _ _ _ Hb) as [msg ->].
  exists msg. intros v. unfold Validator.call. by rewrite Hb.
Qed.

Lemma validator_bind_extra_empty (a : Call.Args Arg) (b : Call.Bound Arg) :
  Call.bind Validator.__call__ a = Ok b -> Call.extra b = ∅.
Proof.
  intros (env & b1 & env' & _ & Hkw & _ & ->)%bind_inv. cbn.
  by rewrite (bind_keywords_extra_fixed Validator.__call__ _ _ _ eq_refl Hkw).
Qed.

(** X10: whenever a call of a validator binds, the body sees exactly the four
    parameters of the protocol and nothing else. *)
Theorem validator_body_sees_the_four_parameters
    (a : Call.Args Arg) (b : Call.Bound Arg) :
  Call.bind Validator.__call__ a = Ok b ->
  dom (Call.locals b) = ({["value"; "name"; "owner"; "setting"]} : gset string) /\
  Call.extra b = ∅.
Proof.
  intros Hb. split.
  - apply set_eq. intros k. rewrite elem_of_dom. split.
    + intros Hsome.
      destruct (Call.is_param Validator.__call__ k) eqn:Hk.
      * apply validator_is_param in Hk.
        rewrite !elem_of_cons, elem_of_nil in Hk.
        rewrite !elem_of_union, !elem_of_singleton. tauto.
      * rewrite (bind_locals_only_params _ _ _ _ Hb Hk) in Hsome.
        by destruct Hsome.
    + intros Hk.
      assert (Hp : Call.is_param Validator.__call__ k = true).
      { apply validator_is_param.
        rewrite !elem_of_union, !elem_of_singleton in Hk.
        rewrite !elem_of_cons, elem_of_nil. tauto. }
      apply is_param_inv in Hp as (p & Hp & <-).
      by eapply bind_locals_all_params.
  - by apply (validator_bind_extra_empty a).
Qed.

Lemma validator_body_sees_the_four_parameters_witness :
  let a := Call.mkArgs [AVal (Int 5)] [("owner", AOwner 7%nat)] in
  exists b,
    Call.bind Validator.__call__ a = Ok b /\
    dom (Call.locals b) = ({["value"; "name"; "owner"; "setting"]} : gset string) /\
    Call.extra b = ∅.
Proof.
  intros a. eexists. split; [reflexivity|].
  apply (validator_body_sees_the_four_parameters a). reflexivity.
Defined.

(** X11: a keyword other than [value], [name], [owner] and [setting] makes the
    call of a validator fail with a [TypeError], whatever the validator. *)
Theorem validator_refuses_unknown_keyword
    (a : Call.Args Arg) (k : string) (x : Arg) :
  (k, x) ∈ Call.keywords a ->
  k ∉ ["value"; "name"; "owner"; "setting"] ->
  exists msg, forall v : Validator.t, Validator.call v a = Raise (TypeError msg).
Proof.
  intros Hin Hk.
  assert (Hp : Call.is_param Validator.__call__ k = false).
  { destruct (Call.is_param Validator.__call__ k) eqn:Hp; [|done].
    by apply validator_is_param in Hp. }
  destruct (Call.bind Validator.__call__ a) as [b|e] eqn:Hb.
  - apply bind_inv in Hb as (env & b1 & env' & _ & Hkw & _ & _).
    destruct (bind_keywords_unknown Validator.__call__ (Call.keywords a)
                (Call.mkBound env ∅) k x eq_refl Hin Hp) as [msg Hmsg].
    congruence.
  - by eapply validator_call_of_failed_binding.
Qed.

Lemma validator_refuses_unknown_keyword_witness :
  exists msg, forall v : Validator.t,
    Validator.call v (Call.mkArgs [AVal (Int 5)] [("strict", AVal (Bool true))])
    = Raise (TypeError msg).
Proof.
  apply (validator_refuses_unknown_keyword
           (Call.mkArgs [AVal (Int 5)] [("strict", AVal (Bool true))])
           "strict" (AVal (Bool true))).
  - left.
  - rewrite !elem_of_cons, elem_of_nil. intros [?|[?|[?|[?|[]]]]]; discriminate.
Defined.

(** X12: the value is mandatory: a call that passes it neither positionally nor
    by keyword fails with a [TypeError], whatever the validator. *)
Theorem validator_value_is_mandatory (a : Call.Args Arg) :
  Call.positional a = [] ->
  "value" ∉ (Call.keywords a).*1 ->
  exists msg, forall v : Validator.t, Validator.call v a = Raise (TypeError msg).
Proof.
  intros Hpos Hkey.
  destruct (Call.bind Validator.__call__ a) as [b|e] eqn:Hb.
  - apply bind_inv in Hb as (env & b1 & env' & Hbp & Hkw & Hfd & _).
    rewrite Hpos in Hbp. cbn in Hbp. injection Hbp as <-.
    assert (Hnone : Call.locals b1 !! "value" = None).
    { eapply bind_keywords_absent; [exact Hkw|exact Hkey|]. apply lookup_empty. }
    cbn in Hfd. by rewrite Hnone in Hfd.
  - by eapply validator_call_of_failed_binding.
Qed.

Lemma validator_value_is_mandatory_witness :
  exists msg, forall v : Validator.t,
    Validator.call v (Call.mkArgs [] [("name", AVal (Str "TOKEN"))])
    = Raise (TypeError msg).
Proof.
  apply (validator_value_is_mandatory
           (Call.mkArgs [] [("name", AVal (Str "TOKEN"))])).
  - reflexivity.
  - cbn. rewrite !elem_of_cons, elem_of_nil. intros [?|[]]; discriminate.
Defined.

(** X13: what the caller passes is what the body reads: each keyword argument
    under its own name, and the positional argument -- there can be only
    one -- as [value]. *)
Theorem validator_body_reads_the_arguments
    (a : Call.Args Arg) (b : Call.Bound Arg) :
  Call.bind Validator.__call__ a = Ok b ->
  (forall k x, (k, x) ∈ Call.keywords a -> Call.locals b !! k = Some x) /\
  (forall v rest, Call.positional a = v :: rest ->
                  rest = [] /\ Call.locals b !! "value" = Some v).
Proof.
  intros Hb. split.
  - intros k x Hin.
    pose proof (bind_keyword_routed _ _ _ _ _ Hb Hin) as Hr.
    destruct (Call.is_param Validator.__call__ k); [done|].
    destruct Hr as [Hextra _].
    by rewrite (validator_bind_extra_empty a b Hb), lookup_empty in Hextra.
  - intros v rest Hpos.
    apply bind_inv in Hb as (env & b1 & env' & Hbp & Hkw & Hfd & ->).
    rewrite Hpos, validator_bind_positional in Hbp. injection Hbp as <- ->.
    split; [done|]. cbn.
    eapply fill_defaults_kept; [done|].
    eapply bind_keywords_locals_kept; [done|]. cbn. apply lookup_insert_eq.
Qed.

Lemma validator_body_reads_the_arguments_witness :
  let a := Call.mkArgs [AVal (Int 5)]
             [("setting", ASetting plain_uuid_setting); ("owner", AOwner 7%nat)] in
  exists b,
    Call.bind Validator.__call__ a = Ok b /\
    Call.locals b !! "owner" = Some (AOwner 7%nat) /\
    Call.locals b !! "value" = Some (AVal (Int 5)).
Proof.
  intros a. eexists. split; [reflexivity|].
  pose proof (validator_body_reads_the_arguments a _ eq_refl) as [Hkw Hpos].
  split.
  - apply Hkw. right. left.
  - apply (Hpos (AVal (Int 5)) []). reflexivity.
Defined.

(** The three stages of a binding, put together. *)
Lemma bind_intro {V} (sig : Call.Signature V) (a : Call.Args V)
    (env env' : gmap string V) (b1 : Call.Bound V) :
  Call.bind_positional (Call.params sig) (Call.positional a) = (env, []) ->
  Call.bind_keywords sig (Call.keywords a) (Call.mkBound env ∅) = Ok b1 ->
  Call.fill_defaults (Call.params sig) (Call.locals b1) = Ok env' ->
  Call.bind sig a = Ok (Call.mkBound env' (Call.extra b1)).
Proof.
  intros Hbp Hkw Hfd. unfold Call.bind. rewrite Hbp.
  unfold mbind, Result_bind. by rewrite Hkw, Hfd.
Qed.

(** A keyword that names a parameter is not collected by [**kwargs]. *)
Lemma bind_keywords_extra_absent {V} (sig : Call.Signature V)
    (kws : list (string * V)) (b b' : Call.Bound V) (k : string) :
  Call.bind_keywords sig kws b = Ok b' ->
  Call.is_param sig k = true ->
  Call.extra b !! k = None -> Call.extra b' !! k = None.
Proof.
  revert b. induction kws as [|[k0 v0] kws IH]; intros b; cbn.
  - by intros [= <-].
  - intros Hb Hk Hnone.
    destruct (Call.is_param sig k0) eqn:Hk0.
    + destruct (Call.locals b !! k0); [done|]. by eapply IH.
    + destruct (Call.var_keyword sig); [|done].
      destruct (Call.extra b !! k0); [done|].
      eapply IH; [done|done|]. cbn.
      rewrite lookup_insert_ne; [done|]. congruence.
Qed.

(** ** Calls of the [UUIDSetting] constructor *)

Lemma uuid_setting_is_param (k : string) :
  Call.is_param UUIDSetting.signature k = true <->
  k ∈ ["value"; "doc"; "validators"; "override"].
Proof.
  unfold Call.is_param, UUIDSetting.signature.
  cbn [Call.params Call.pname existsb].
  rewrite !orb_true_iff, !String.eqb_eq, !elem_of_cons, elem_of_nil.
  intuition congruence.
Qed.

Lemma uuid_setting_bind_positional
    (v : UUIDSetting.InitArg) (rest : list UUIDSetting.InitArg) :
  Call.bind_positional (Call.params UUIDSetting.signature) (v :: rest)
  = (<["value" := v]> ∅, rest).
Proof. by destruct rest. Qed.

Lemma uuid_setting_params_NoDup :
  NoDup (Call.pname <$> Call.params UUIDSetting.signature).
Proof.
  cbn. repeat (apply NoDup_cons; split;
               [rewrite ?elem_of_cons, elem_of_nil; intuition discriminate|]).
  apply NoDup_nil_2.
Qed.

(** X6: the constructor takes any keywords: a call with at most one positional
    argument and distinct keyword names, which does not give [value] twice,
    always binds.  ([self] is taken by the instance under construction and
    is no keyword of such a call.) *)
Theorem uuid_setting_constructor_accepts_any_keywords
    (a : Call.Args UUIDSetting.InitArg) :
  (length (Call.positional a) <= 1)%nat ->
  NoDup (Call.keywords a).*1 ->
  "self" ∉ (Call.keywords a).*1 ->
  (Call.positional a <> [] -> "value" ∉ (Call.keywords a).*1) ->
  exists b, Call.bind UUIDSetting.signature a = Ok b.
Proof.
  destruct a as [pos kws]. cbn. intros Hlen Hnd _ Hvalue.
  assert (Hdefaults : forall env, exists env',
             Call.fill_defaults (Call.params UUIDSetting.signature) env = Ok env').
  { intros env. apply fill_defaults_succeeds.
    cbn. repeat (apply Forall_cons; split; [by eexists|]). by apply Forall_nil. }
  assert (Hbound : forall env,
             Call.bind_positional (Call.params UUIDSetting.signature) pos
             = (env, []) ->
             (forall k, k ∈ kws.*1 -> env !! k = None) ->
             exists b, Call.bind UUIDSetting.signature (Call.mkArgs pos kws)
                       = Ok b).
  { intros env Hbp Hfree.
    destruct (bind_keywords_succeeds UUIDSetting.signature kws
                (Call.mkBound env ∅)) as [b0 Hb0]; [by eexists|done| |].
    - intros k Hk. split; [by apply Hfree|apply lookup_empty].
    - destruct (Hdefaults (Call.locals b0)) as [env' Henv'].
      eexists. by eapply bind_intro. }
  destruct pos as [|v [|v' pos]]; [| |cbn in Hlen; lia].
  - apply (Hbound ∅); [done|]. intros k _. apply lookup_empty.
  - apply (Hbound (<["value" := v]> ∅)); [apply uuid_setting_bind_positional|].
    intros k Hk. rewrite lookup_insert_ne, lookup_empty; [done|].
    intros <-. by apply Hvalue.
Qed.

Lemma uuid_setting_constructor_accepts_any_keywords_witness :
  exists b,
    Call.bind UUIDSetting.signature
      (Call.mkArgs [UUIDSetting.IVal (Str "not-a-uuid")]
         [("type_hint", UUIDSetting.IType TyInt);
          ("behaviors", UUIDSetting.IVal None_);
          ("override", UUIDSetting.IVal (Bool true))])
    = Ok b.
Proof.
  apply uuid_setting_constructor_accepts_any_keywords; cbn.
  - lia.
  - repeat (apply NoDup_cons; split;
            [rewrite ?elem_of_cons, elem_of_nil; intuition discriminate|]).
    apply NoDup_nil_2.
  - rewrite !elem_of_cons, elem_of_nil. intuition discriminate.
  - intros _. rewrite !elem_of_cons, elem_of_nil. intuition discriminate.
Defined.

(** X7: only [value] can be passed positionally: a second positional argument
    makes the constructor call fail with a [TypeError]. *)
Theorem uuid_setting_constructor_refuses_second_positional
    (first second : UUIDSetting.InitArg) (more : list UUIDSetting.InitArg)
    (kws : list (string * UUIDSetting.InitArg)) :
  exists msg,
    Call.bind UUIDSetting.signature
      (Call.mkArgs (first :: second :: more) kws)
    = Raise (TypeError msg).
Proof.
  unfold Call.bind. cbn [Call.positional Call.keywords].
  rewrite uuid_setting_bind_positional.
  destruct (Call.bind_keywords UUIDSetting.signature kws _) as [b|e] eqn:Hkw;
    cbn.
  - eauto.
  - apply bind_keywords_raises in Hkw as [msg ->]. eauto.
Qed.

(** X8: a parameter the call does not mention is bound to its default:
    [Undefined] for [value], the empty string for [doc], the empty tuple for
    [validators] and [False] for [override].  ([self] is no keyword of a
    constructor call.) *)
Theorem uuid_setting_constructor_defaults
    (a : Call.Args UUIDSetting.InitArg) (b : Call.Bound UUIDSetting.InitArg)
    (p : Call.Param UUIDSetting.InitArg) :
  Call.bind UUIDSetting.signature a = Ok b ->
  "self" ∉ (Call.keywords a).*1 ->
  p ∈ Call.params UUIDSetting.signature ->
  Call.pname p ∉ (Call.keywords a).*1 ->
  (Call.pname p = "value" -> Call.positional a = []) ->
  Call.locals b !! Call.pname p = Call.default p /\
  (Call.pname p = "value" -> Call.default p = Some (UUIDSetting.IVal Undefined)) /\
  (Call.pname p = "doc" -> Call.default p = Some (UUIDSetting.IVal (Str ""))) /\
  (Call.pname p = "validators" -> Call.default p = Some (UUIDSetting.IValidators [])) /\
  (Call.pname p = "override" -> Call.default p = Some (UUIDSetting.IVal (Bool false))).
Proof.
  intros (env & b1 & env' & Hbp & Hkw & Hfd & ->)%bind_inv _ Hp Hkey Hpos.
  split.
  - cbn [Call.locals].
    eapply fill_defaults_default; [apply uuid_setting_params_NoDup|done| |done].
    eapply bind_keywords_absent; [done|done|]. cbn [Call.locals].
    destruct (Call.positional a) as [|v rest].
    + cbn in Hbp. injection Hbp as <-. apply lookup_empty.
    + rewrite uuid_setting_bind_positional in Hbp. injection Hbp as <- ->.
      rewrite lookup_insert_ne, lookup_empty; [done|].
      intros Heq. by specialize (Hpos (eq_sym Heq)).
  - cbn in Hp. rewrite !elem_of_cons, elem_of_nil in Hp.
    destruct Hp as [->|[->|[->|[->|[]]]]]; cbn; split_and!; by intros.
Qed.

Lemma uuid_setting_constructor_defaults_witness :
  let a := Call.mkArgs [] [("doc", UUIDSetting.IVal (Str "a token"))] in
  exists b,
    Call.bind UUIDSetting.signature a = Ok b /\
    Call.locals b !! "override" = Some (UUIDSetting.IVal (Bool false)).
Proof.
  intros a.
  destruct (Call.bind UUIDSetting.signature a) as [b|e] eqn:Hb;
    [|vm_compute in Hb; discriminate Hb].
  exists b. split; [reflexivity|].
  apply (uuid_setting_constructor_defaults a b
           (Call.mkParam "override" Call.KEYWORD_ONLY
              (Some (UUIDSetting.IVal (Bool false)))) Hb).
  - cbn. rewrite !elem_of_cons, elem_of_nil. intuition discriminate.
  - cbn. rewrite !elem_of_cons. tauto.
  - cbn. rewrite !elem_of_cons, elem_of_nil. intuition discriminate.
  - discriminate.
Defined.

(** X9: every keyword argument of a constructor call ends up in one place: the
    parameter of that name if there is one, the [**ignore] dictionary
    otherwise.  ([self] is no keyword of a constructor call.) *)
Theorem uuid_setting_constructor_routes_keywords
    (a : Call.Args UUIDSetting.InitArg) (b : Call.Bound UUIDSetting.InitArg)
    (k : string) (x : UUIDSetting.InitArg) :
  Call.bind UUIDSetting.signature a = Ok b ->
  "self" ∉ (Call.keywords a).*1 ->
  (k, x) ∈ Call.keywords a ->
  (k ∈ ["value"; "doc"; "validators"; "override"] ->
   Call.locals b !! k = Some x /\ Call.extra b !! k = None) /\
  (k ∉ ["value"; "doc"; "validators"; "override"] ->
   Call.extra b !! k = Some x /\ Call.locals b !! k = None).
Proof.
  intros Hb _ Hin.
  pose proof (bind_keyword_routed _ _ _ _ _ Hb Hin) as Hr.
  split; intros Hk.
  - apply uuid_setting_is_param in Hk. rewrite Hk in Hr. split; [done|].
    apply bind_inv in Hb as (env & b1 & env' & _ & Hkw & _ & ->). cbn.
    eapply bind_keywords_extra_absent; [done|done|]. apply lookup_empty.
  - destruct (Call.is_param UUIDSetting.signature k) eqn:Hp; [|done].
    by apply uuid_setting_is_param in Hp.
Qed.

Lemma uuid_setting_constructor_routes_keywords_witness :
  let a := Call.mkArgs []
             [("doc", UUIDSetting.IVal (Str "a token"));
              ("help", UUIDSetting.IVal (Str "unused"))] in
  exists b,
    Call.bind UUIDSetting.signature a = Ok b /\
    (Call.locals b !! "doc" = Some (UUIDSetting.IVal (Str "a token")) /\
     Call.extra b !! "doc" = None) /\
    (Call.extra b !! "help" = Some (UUIDSetting.IVal (Str "unused")) /\
     Call.locals b !! "help" = None).
Proof.
  intros a.
  destruct (Call.bind UUIDSetting.signature a) as [b|e] eqn:Hb;
    [|vm_compute in Hb; discriminate Hb].
  exists b. split; [reflexivity|]. split.
  - apply (uuid_setting_constructor_routes_keywords a b "doc"
             (UUIDSetting.IVal (Str "a token")) Hb).
    + cbn. rewrite !elem_of_cons, elem_of_nil. intuition discriminate.
    + left.
    + rewrite !elem_of_cons. tauto.
  - apply (uuid_setting_constructor_routes_keywords a b "help"
             (UUIDSetting.IVal (Str "unused")) Hb).
    + cbn. rewrite !elem_of_cons, elem_of_nil. intuition discriminate.
    + right. left.
    + rewrite !elem_of_cons, elem_of_nil. intuition discriminate.
Defined.

(** ** The coercion step of [UUIDSetting.set_value] *)

Section TextLengths.
Implicit Types (s old chars : string).

Lemma remove_from_length old (k : nat) s :
  (String.length (PyStr.remove_from old k s) <= String.length s)%nat.
Proof.
  revert k. induction s as [|c s IH]; intros k; cbn; [lia|].
  destruct k as [|k].
  - destruct (PyStr.is_prefix old (String c s)); cbn.
    + specialize (IH (Nat.pred (String.length old))). lia.
    + specialize (IH O). lia.
  - specialize (IH k). lia.
Qed.

Lemma remove_length old s :
  (String.length (PyStr.remove old s) <= String.length s)%nat.
Proof. apply remove_from_length. Qed.

Lemma lstrip_length chars s :
  (String.length (PyStr.lstrip chars s) <= String.length s)%nat.
Proof.
  induction s as [|c s IH]; cbn; [lia|].
  destruct (PyStr.mem c chars); cbn; lia.
Qed.

Lemma rstrip_length chars s :
  (String.length (PyStr.rstrip chars s) <= String.length s)%nat.
Proof.
  induction s as [|c s IH]; cbn; [lia|].
  destruct (PyStr.rstrip chars s) as [|c' r]; cbn in *.
  - destruct (PyStr.mem c chars); cbn; lia.
  - lia.
Qed.

Lemma strip_length chars s :
  (String.length (PyStr.strip chars s) <= String.length s)%nat.
Proof.
  unfold PyStr.strip.
  pose proof (rstrip_length chars (PyStr.lstrip chars s)).
  pose proof (lstrip_length chars s). lia.
Qed.

End TextLengths.

(** X1: for a text value the coercion step never raises: the base class's
    [set_value] is always reached, with the parsed UUID when the text is
    one and with the text itself otherwise. *)
Theorem uuid_set_value_text_always_reaches_base
    (super_set_value : Setting.t -> Owner -> Val -> M unit)
    (self : Setting.t) (owner : Owner) (s : string) (w : World) :
  UUIDSetting.set_value_with super_set_value self owner (Str s) w
  = super_set_value self owner (UUIDSetting.coerced (Str s)) w.
Proof.
  unfold UUIDSetting.set_value_with, UUIDSetting.coerced.
  destruct (Uuid.new (Str s)) as [u|e] eqn:Hnew; [done|].
  by rewrite (uuid_of_text_fails_with_ValueError s e Hnew).
Qed.

(** X2: for a value that is not text -- [None], a number, a boolean, bytes, the
    [Undefined] sentinel, or a UUID instance -- [set_value] raises a
    [TypeError] or an [AttributeError] before the base class is reached, and
    leaves everything as it was. *)
Theorem uuid_set_value_rejects_non_text
    (super_set_value : Setting.t -> Owner -> Val -> M unit)
    (self : Setting.t) (owner : Owner) (val : Val) (w : World) :
  (forall s, val <> Str s) ->
  exists e,
    (exists msg, e = TypeError msg \/ e = AttributeError msg) /\
    Uuid.new val = Raise e /\
    UUIDSetting.set_value_with super_set_value self owner val w = (Raise e, w).
Proof.
  intros Hval. unfold UUIDSetting.set_value_with.
  destruct val; try (by destruct (Hval s)); cbn;
    refine (ex_intro _ _ (conj _ (conj eq_refl eq_refl)));
    eexists; ((by left) || (by right)).
Qed.

Lemma uuid_set_value_rejects_non_text_witness :
  exists e,
    (exists msg, e = TypeError msg \/ e = AttributeError msg) /\
    Uuid.new (UUID 0x123e4567e89b12d3a456426614174000) = Raise e /\
    UUIDSetting.set_value_with Setting.set_value plain_uuid_setting 7%nat
      (UUID 0x123e4567e89b12d3a456426614174000) empty_world
    = (Raise e, empty_world).
Proof.
  apply (uuid_set_value_rejects_non_text Setting.set_value plain_uuid_setting
           7%nat (UUID 0x123e4567e89b12d3a456426614174000) empty_world).
  intros s. discriminate.
Defined.

(** X3: when the coercion succeeds the value was text, and what the base class
    receives instead of it is a UUID whose number fits 128 bits. *)
Theorem uuid_set_value_coerces_text_to_128_bits
    (super_set_value : Setting.t -> Owner -> Val -> M unit)
    (self : Setting.t) (owner : Owner) (val u : Val) (w : World) :
  Uuid.new val = Ok u ->
  (exists s n, val = Str s /\ u = UUID n /\ 0 <= n < 2 ^ 128) /\
  UUIDSetting.set_value_with super_set_value self owner val w
  = super_set_value self owner u w.
Proof.
  intros Hnew. split.
  - unfold Uuid.new in Hnew. destruct val as [| | | |s| |]; try done.
    destruct (negb _); [done|].
    destruct (PyInt.parse16 _) as [n|]; [|done].
    destruct ((0 <=? n) && (n <? 2 ^ 128)) eqn:Hrange; [|done].
    injection Hnew as <-. exists s, n. split_and!; try done.
    + apply andb_true_iff in Hrange as [H0 _]. by apply Z.leb_le.
    + apply andb_true_iff in Hrange as [_ H1]. by apply Z.ltb_lt.
  - unfold UUIDSetting.set_value_with. by rewrite Hnew.
Qed.

Lemma uuid_set_value_coerces_text_to_128_bits_witness :
  (exists s n,
      Str "{123e4567e89b12d3a456426614174000}" = Str s /\
      UUID 0x123e4567e89b12d3a456426614174000 = UUID n /\ 0 <= n < 2 ^ 128) /\
  UUIDSetting.set_value_with Setting.set_value plain_uuid_setting 7%nat
    (Str "{123e4567e89b12d3a456426614174000}") empty_world
  = Setting.set_value plain_uuid_setting 7%nat
      (UUID 0x123e4567e89b12d3a456426614174000) empty_world.
Proof.
  apply (uuid_set_value_coerces_text_to_128_bits Setting.set_value
           plain_uuid_setting 7%nat
           (Str "{123e4567e89b12d3a456426614174000}")
           (UUID 0x123e4567e89b12d3a456426614174000) empty_world).
  reflexivity.
Defined.

(** X4: text of fewer than 32 characters -- the empty text included -- is never
    a UUID: the coercion fails with a [ValueError], which is swallowed, and
    the base class receives the text as it was given. *)
Theorem uuid_set_value_short_text_is_kept
    (super_set_value : Setting.t -> Owner -> Val -> M unit)
    (self : Setting.t) (owner : Owner) (s : string) (w : World) :
  (String.length s < 32)%nat ->
  Uuid.new (Str s) = Raise (ValueError "badly formed hexadecimal UUID string") /\
  UUIDSetting.set_value_with super_set_value self owner (Str s) w
  = super_set_value self owner (Str s) w.
Proof.
  intros Hlen.
  assert (Hnew : Uuid.new (Str s)
                 = Raise (ValueError "badly formed hexadecimal UUID string")).
  { unfold Uuid.new.
    set (h := PyStr.remove "-" _).
    assert (Hh : (String.length h < 32)%nat).
    { subst h.
      pose proof (remove_length "-"
                    (PyStr.strip "{}"
                       (PyStr.remove "uuid:" (PyStr.remove "urn:" s)))).
      pose proof (strip_length "{}"
                    (PyStr.remove "uuid:" (PyStr.remove "urn:" s))).
      pose proof (remove_length "uuid:" (PyStr.remove "urn:" s)).
      pose proof (remove_length "urn:" s). lia. }
    destruct (String.length h =? 32)%nat eqn:Heq; [|done].
    apply Nat.eqb_eq in Heq. lia. }
  split; [done|].
  unfold UUIDSetting.set_value_with. by rewrite Hnew.
Qed.

Lemma uuid_set_value_short_text_is_kept_witness :
  Uuid.new (Str "") = Raise (ValueError "badly formed hexadecimal UUID string") /\
  UUIDSetting.set_value_with Setting.set_value plain_uuid_setting 7%nat
    (Str "") empty_world
  = Setting.set_value plain_uuid_setting 7%nat (Str "") empty_world.
Proof.
  apply (uuid_set_value_short_text_is_kept Setting.set_value
           plain_uuid_setting 7%nat "" empty_world).
  cbn. lia.
Defined.

(** X5: the coercion cannot be applied twice: the UUID that a successful
    coercion hands to the base class is itself refused by [set_value], with
    an [AttributeError] and nothing changed. *)
Theorem uuid_set_value_refuses_its_own_result
    (super_set_value : Setting.t -> Owner -> Val -> M unit)
    (self : Setting.t) (owner : Owner) (val u : Val) (w : World) :
  Uuid.new val = Ok u ->
  exists msg,
    Uuid.new u = Raise (AttributeError msg) /\
    UUIDSetting.set_value_with super_set_value self owner u w
    = (Raise (AttributeError msg), w).
Proof.
  intros Hnew.
  assert (Hu : exists n, u = UUID n).
  { unfold Uuid.new in Hnew. destruct val as [| | | |s| |]; try done.
    repeat case_match; try done. injection Hnew as <-. eauto. }
  destruct Hu as [n ->]. eexists. split; reflexivity.
Qed.

Lemma uuid_set_value_refuses_its_own_result_witness :
  exists msg,
    Uuid.new (UUID 0x123e4567e89b12d3a456426614174000)
    = Raise (AttributeError msg) /\
    UUIDSetting.set_value_with Setting.set_value plain_uuid_setting 7%nat
      (UUID 0x123e4567e89b12d3a456426614174000) empty_world
    = (Raise (AttributeError msg), empty_world).
Proof.
  apply (uuid_set_value_refuses_its_own_result Setting.set_value
           plain_uuid_setting 7%nat
           (Str "123e4567-e89b-12d3-a456-426614174000")
           (UUID 0x123e4567e89b12d3a456426614174000) empty_world).
  reflexivity.
Defined.

(** ** The version gate, read backwards and forwards *)

Lemma gate_passes_iff (major minor : Z) :
  Package.tuple_lt (major, minor) Package.PY_36 = false <->
  3 < major \/ (major = 3 /\ 6 <= minor).
Proof.
  unfold Package.tuple_lt, Package.PY_36. cbn.
  rewrite orb_false_iff, andb_false_iff, !Z.ltb_ge, Z.eqb_neq. lia.
Qed.

(** X14: if the module body completes, its imports completed and the
    interpreter is at (3, 6) or above. *)
Theorem package_import_implies_supported_version
    (imports : Result unit) (major minor : Z) :
  Package.import_ imports major minor = Ok tt ->
  imports = Ok tt /\ (3 < major \/ (major = 3 /\ 6 <= minor)).
Proof.
  unfold Package.import_, mbind, Result_bind.
  destruct imports as [[]|e]; [|done].
  destruct (Package.tuple_lt (major, minor) Package.PY_36) eqn:Hlt; [done|].
  intros _. split; [done|]. by apply gate_passes_iff.
Qed.

Lemma package_import_implies_supported_version_witness :
  Ok tt = Ok tt /\ (3 < 3 \/ (3 = 3 /\ 6 <= 11)).
Proof.
  apply (package_import_implies_supported_version (Ok tt) 3 11).
  reflexivity.
Defined.

(** X15: the gate is monotone: an interpreter at least as recent as one that
    passes the gate passes it too, whatever its minor number. *)
Theorem package_gate_is_monotone (major minor major' minor' : Z) :
  Package.import_ (Ok tt) major minor = Ok tt ->
  major < major' \/ (major = major' /\ minor <= minor') ->
  Package.import_ (Ok tt) major' minor' = Ok tt.
Proof.
  unfold Package.import_, mbind, Result_bind.
  destruct (Package.tuple_lt (major, minor) Package.PY_36) eqn:Hlt; [done|].
  intros _ Hle. apply gate_passes_iff in Hlt.
  assert (Hlt' : Package.tuple_lt (major', minor') Package.PY_36 = false)
    by (apply gate_passes_iff; lia).
  by rewrite Hlt'.
Qed.

Lemma package_gate_is_monotone_witness :
  Package.import_ (Ok tt) 4 0 = Ok tt.
Proof.
  apply (package_gate_is_monotone 3 6 4 0).
  - reflexivity.
  - lia.
Defined.
